(** * Options spread analyzer: backtesting engine, strategy tracker and
    performance analyzer.

    Shallow embedding of [src/src/options_analyzer/backtesting/*.py] and
    [src/src/options_analyzer/core/options_strategies.py].

    Numbers: Python [float]s are modelled as exact rationals [Q]; every
    concrete value used below (strikes, premiums, prices) is exactly
    representable, so the rational results coincide with the float ones.
    Python [int]s are [Z]. Datetimes are [Z] timestamps (seconds), and the
    value of [datetime.now()] is passed in as an explicit clock argument. *)

From Stdlib Require Import QArith Qabs Qround ZArith List String Bool Lia.
From Stdlib Require Import Permutation Sorted Lqa.
Import ListNotations.
Open Scope string_scope.

(** ** models.py *)

Inductive StrategyStatus := PENDING | ACTIVE | COMPLETED | EXPIRED.

Inductive StrategyResult := PROFIT | LOSS | BREAKEVEN.

Definition StrategyResult_eqb (a b : StrategyResult) : bool :=
  match a, b with
  | PROFIT, PROFIT | LOSS, LOSS | BREAKEVEN, BREAKEVEN => true
  | _, _ => false
  end.

(** [BacktestStrategy]; [market_analysis] (an opaque dict), [created_at] and
    [notes] are not read by any modelled function and are left out. *)
Record BacktestStrategy := mkStrategy {
  id : string;
  symbol : string;
  strategy_name : string;
  entry_date : Z;
  expiration_date : Z;
  entry_price : Q;
  lower_strike : Q;
  upper_strike : Q;
  lower_premium : Q;
  upper_premium : Q;
  contracts : Z;
  initial_cost : Q;
  max_profit : Q;
  max_loss : Q;
  status : StrategyStatus;
  exit_price : option Q;
  exit_date : option Z;
  final_pnl : option Q;
  result : option StrategyResult;
  exit_reason : option string
}.

(** Comparisons of floats. *)
Definition Qltb (a b : Q) : bool := negb (Qle_bool b a).
Definition Qleb (a b : Q) : bool := Qle_bool a b.

(** ** backtest_engine.py: [BacktestEngine.add_strategy_for_backtesting]

    [new_id] is the value of [str(uuid.uuid4())], [now] the value of
    [datetime.now()] and [tracker_add] the outcome of
    [self.strategy_tracker.add_strategy(strategy)]. [None] is the
    function's [None] return (unknown type or failed insertion). *)
Definition add_strategy_for_backtesting
    (new_id : string) (now : Z) (tracker_add : BacktestStrategy -> bool)
    (symbol_ strategy_name_ : string) (entry_price_ lower_strike_ upper_strike_
     lower_premium_ upper_premium_ : Q) (contracts_ : Z)
    (expiration_date_ : Z) : option BacktestStrategy :=
  let c := inject_Z contracts_ in
  let params :=
    if String.eqb strategy_name_ "Call Debit Spread" then
      Some ((lower_premium_ - upper_premium_) * c,
            (upper_strike_ - lower_strike_ - (lower_premium_ - upper_premium_)) * c,
            (lower_premium_ - upper_premium_) * c)
    else if String.eqb strategy_name_ "Put Debit Spread" then
      Some ((upper_premium_ - lower_premium_) * c,
            (upper_strike_ - lower_strike_ - (upper_premium_ - lower_premium_)) * c,
            (upper_premium_ - lower_premium_) * c)
    else None in
  match params with
  | None => None
  | Some (ic, mp, ml) =>
      let strategy :=
        {| id := new_id; symbol := symbol_; strategy_name := strategy_name_;
           entry_date := now; expiration_date := expiration_date_;
           entry_price := entry_price_;
           lower_strike := lower_strike_; upper_strike := upper_strike_;
           lower_premium := lower_premium_; upper_premium := upper_premium_;
           contracts := contracts_; initial_cost := ic; max_profit := mp;
           max_loss := ml; status := ACTIVE;
           exit_price := None; exit_date := None; final_pnl := None;
           result := None; exit_reason := None |} in
      if tracker_add strategy then Some strategy else None
  end.

(** ** strategy_tracker.py: [StrategyTracker.calculate_strategy_result] *)
Definition calculate_strategy_result (strategy : BacktestStrategy)
    (current_price : Q) : Q * StrategyResult * string :=
  let between intrinsic_value :=
    let pnl := (intrinsic_value - initial_cost strategy) * inject_Z (contracts strategy) in
    if Qltb 0 pnl then (pnl, PROFIT, "Price between strikes - partial profit")
    else if Qltb pnl 0 then (pnl, LOSS, "Price between strikes - partial loss")
    else (pnl, BREAKEVEN, "Price at breakeven point") in
  if String.eqb (strategy_name strategy) "Call Debit Spread" then
    if Qleb (upper_strike strategy) current_price then
      (max_profit strategy, PROFIT, "Price above upper strike - max profit")
    else if Qleb current_price (lower_strike strategy) then
      (- max_loss strategy, LOSS, "Price below lower strike - max loss")
    else between (current_price - lower_strike strategy)
  else if String.eqb (strategy_name strategy) "Put Debit Spread" then
    if Qleb current_price (lower_strike strategy) then
      (max_profit strategy, PROFIT, "Price below lower strike - max profit")
    else if Qleb (upper_strike strategy) current_price then
      (- max_loss strategy, LOSS, "Price above upper strike - max loss")
    else between (upper_strike strategy - current_price)
  else (0, BREAKEVEN, "Unknown strategy type").

(** ** strategy_tracker.py: the tracker's state

    Python objects are shared by reference: [self.active_strategies] and the
    snapshot returned by [get_expired_strategies] hold the same
    [BacktestStrategy] objects, and [process_expired_strategies] mutates
    them in place. The state is therefore a heap of objects indexed by a
    location and the active list is a list of locations. *)
Definition loc := nat.

Record Tracker := mkTracker {
  heap : loc -> BacktestStrategy;
  active_strategies : list loc
}.

Definition write (st : Tracker) (l : loc) (s : BacktestStrategy) : Tracker :=
  {| heap := fun l' => if Nat.eqb l' l then s else heap st l';
     active_strategies := active_strategies st |}.

(** [StrategyTracker.remove_strategy]: rebuilds the list without the
    objects whose [id] is [strategy_id]. *)
Definition remove_strategy (strategy_id : string) (st : Tracker) : Tracker :=
  {| heap := heap st;
     active_strategies :=
       filter (fun l => negb (String.eqb (id (heap st l)) strategy_id))
              (active_strategies st) |}.

(** [StrategyTracker.get_expired_strategies]: [now] is [datetime.now()]. *)
Definition get_expired_strategies (now : Z) (st : Tracker) : list loc :=
  filter (fun l => Z.leb (expiration_date (heap st l)) now) (active_strategies st).

(** The in-place assignments of [process_expired_strategies]. *)
Definition complete (s : BacktestStrategy) (current_price : Q) (now : Z)
    (final_pnl_ : Q) (result_ : StrategyResult) (reason : string) : BacktestStrategy :=
  {| id := id s; symbol := symbol s; strategy_name := strategy_name s;
     entry_date := entry_date s; expiration_date := expiration_date s;
     entry_price := entry_price s;
     lower_strike := lower_strike s; upper_strike := upper_strike s;
     lower_premium := lower_premium s; upper_premium := upper_premium s;
     contracts := contracts s; initial_cost := initial_cost s;
     max_profit := max_profit s; max_loss := max_loss s;
     status := COMPLETED;
     exit_price := Some current_price; exit_date := Some now;
     final_pnl := Some final_pnl_; result := Some result_;
     exit_reason := Some reason |}.

Section Process.
(** [get_current_price_func]: [None] when the lookup raises. *)
Variable get_current_price : string -> option Q.
(** [ResultsManager.update_strategy_result] (it catches its own exceptions
    and returns a success flag). *)
Variable update_strategy_result :
  string -> Q -> Z -> Q -> StrategyResult -> string -> bool.
Variable now : Z.

(** The body of the [for strategy in expired_strategies] loop. *)
Fixpoint process_loop (todo : list loc) (st : Tracker) (processed : list loc)
    : Tracker * list loc :=
  match todo with
  | [] => (st, processed)
  | l :: rest =>
      let strategy := heap st l in
      match get_current_price (symbol strategy) with
      | None => process_loop rest st processed
      | Some current_price =>
          let '(final_pnl_, result_, reason) :=
            calculate_strategy_result strategy current_price in
          let st1 := write st l
                       (complete strategy current_price now final_pnl_ result_ reason) in
          if update_strategy_result (id strategy) current_price now
                                    final_pnl_ result_ reason
          then process_loop rest (remove_strategy (id strategy) st1)
                            (processed ++ [l])
          else process_loop rest st1 processed
      end
  end.

(** [StrategyTracker.process_expired_strategies]: the new tracker state and
    the returned list (of references into the heap). *)
Definition process_expired_strategies (st : Tracker) : Tracker * list loc :=
  process_loop (get_expired_strategies now st) st [].
End Process.

(** ** performance_analyzer.py *)

(** A float that may be [float('inf')]. *)
Inductive ExtQ := Fin (q : Q) | PosInf.

(** Python's [round(x, n)] (round half to even), on the exact value. *)
Definition round_half_even (y : Q) : Z :=
  let f := Qfloor y in
  let frac := y - inject_Z f in
  if Qltb frac (1 # 2) then f
  else if Qltb (1 # 2) frac then f + 1
  else if Z.even f then f else f + 1.

Definition round_digits (n : nat) (x : Q) : Q :=
  let scale := inject_Z (10 ^ Z.of_nat n) in
  inject_Z (round_half_even (x * scale)) / scale.

Definition round_ext (n : nat) (x : ExtQ) : ExtQ :=
  match x with Fin q => Fin (round_digits n q) | PosInf => PosInf end.

Definition sumQ (l : list Q) : Q := fold_right Qplus 0 l.

(** [np.mean] of a non-empty list. *)
Definition meanQ (l : list Q) : Q := sumQ l / inject_Z (Z.of_nat (List.length l)).

(** [x or 0] for an optional float: [None] and [0.0] are both falsy. *)
Definition or_zero (x : option Q) : Q :=
  match x with Some q => q | None => 0 end.

(** [PerformanceMetrics]. [sharpe_ratio] needs [np.std], a square root,
    and is not modelled; no property below reads it. *)
Record PerformanceMetrics := mkMetrics {
  total_trades : Z;
  winning_trades : Z;
  losing_trades : Z;
  breakeven_trades : Z;
  win_rate : Q;
  total_profit : Q;
  total_loss : Q;
  net_pnl : Q;
  average_profit : Q;
  average_loss : Q;
  profit_factor : ExtQ;
  max_drawdown : Q;
  average_holding_period : Q
}.

(** [sorted(strategies, key=lambda x: x.entry_date)]: a stable sort. *)
Fixpoint insert_by_entry (s : BacktestStrategy) (l : list BacktestStrategy)
    : list BacktestStrategy :=
  match l with
  | [] => [s]
  | t :: rest =>
      if Z.leb (entry_date s) (entry_date t) then s :: t :: rest
      else t :: insert_by_entry s rest
  end.

Fixpoint sort_by_entry (l : list BacktestStrategy) : list BacktestStrategy :=
  match l with
  | [] => []
  | s :: rest => insert_by_entry s (sort_by_entry rest)
  end.

(** [PerformanceAnalyzer._calculate_cumulative_pnl]. *)
Fixpoint cumulate (cumulative : Q) (l : list BacktestStrategy) : list Q :=
  match l with
  | [] => []
  | s :: rest =>
      let c := cumulative + or_zero (final_pnl s) in c :: cumulate c rest
  end.

Definition _calculate_cumulative_pnl (strategies : list BacktestStrategy) : list Q :=
  match strategies with
  | [] => []
  | _ => cumulate 0 (sort_by_entry strategies)
  end.

(** [PerformanceAnalyzer._calculate_max_drawdown]: the loop over the values,
    carrying [peak] and [max_dd]. *)
Fixpoint drawdown_loop (peak max_dd : Q) (values : list Q) : Q :=
  match values with
  | [] => max_dd
  | value :: rest =>
      let peak' := if Qltb peak value then value else peak in
      let drawdown := if Qltb 0 peak' then (peak' - value) / peak' * 100 else 0 in
      (* [max(max_dd, drawdown)] keeps its first argument on ties *)
      let max_dd' := if Qltb max_dd drawdown then drawdown else max_dd in
      drawdown_loop peak' max_dd' rest
  end.

Definition _calculate_max_drawdown (cumulative_pnl : list Q) : Q :=
  match cumulative_pnl with
  | [] => 0
  | first :: _ => drawdown_loop first 0 cumulative_pnl
  end.

(** [PerformanceAnalyzer._empty_metrics]. *)
Definition _empty_metrics : PerformanceMetrics :=
  {| total_trades := 0; winning_trades := 0; losing_trades := 0;
     breakeven_trades := 0; win_rate := 0; total_profit := 0; total_loss := 0;
     net_pnl := 0; average_profit := 0; average_loss := 0;
     profit_factor := Fin 0; max_drawdown := 0; average_holding_period := 0 |}.

Definition count_result (r : StrategyResult) (l : list BacktestStrategy) : Z :=
  Z.of_nat (List.length (filter (fun s => match result s with
                                     | Some r' => StrategyResult_eqb r' r
                                     | None => false end) l)).

(** [[s.final_pnl for s in strategies if s.final_pnl and s.final_pnl > 0]]
    and its [< 0] twin. *)
Definition profits_of (l : list BacktestStrategy) : list Q :=
  flat_map (fun s => match final_pnl s with
                     | Some p => if Qltb 0 p then [p] else []
                     | None => [] end) l.

Definition losses_of (l : list BacktestStrategy) : list Q :=
  flat_map (fun s => match final_pnl s with
                     | Some p => if Qltb p 0 then [p] else []
                     | None => [] end) l.

(** [(exit_date - entry_date).days] for the records with an exit date;
    [timedelta.days] rounds towards minus infinity. *)
Definition holding_periods (l : list BacktestStrategy) : list Q :=
  flat_map (fun s => match exit_date s with
                     | Some e => [inject_Z (Z.div (e - entry_date s) 86400)]
                     | None => [] end) l.

Definition mean_or_zero (l : list Q) : Q :=
  match l with [] => 0 | _ => meanQ l end.

(** [PerformanceAnalyzer.calculate_performance_metrics]. *)
Definition calculate_performance_metrics (strategies : list BacktestStrategy)
    : PerformanceMetrics :=
  match strategies with
  | [] => _empty_metrics
  | _ =>
    let total_trades_ := Z.of_nat (List.length strategies) in
    let winning := count_result PROFIT strategies in
    let losing := count_result LOSS strategies in
    let breakeven := count_result BREAKEVEN strategies in
    let win_rate_ := if Z.ltb 0 total_trades_
                     then inject_Z winning / inject_Z total_trades_ * 100 else 0 in
    let profits := profits_of strategies in
    let losses := losses_of strategies in
    let total_profit_ := match profits with [] => 0 | _ => sumQ profits end in
    let total_loss_ := match losses with [] => 0 | _ => Qabs (sumQ losses) end in
    let net_pnl_ := total_profit_ - total_loss_ in
    let average_profit_ := mean_or_zero profits in
    let average_loss_ := mean_or_zero losses in
    let profit_factor_ := if Qltb 0 total_loss_
                          then Fin (total_profit_ / total_loss_) else PosInf in
    let max_drawdown_ :=
      _calculate_max_drawdown (_calculate_cumulative_pnl strategies) in
    let average_holding_period_ := mean_or_zero (holding_periods strategies) in
    {| total_trades := total_trades_; winning_trades := winning;
       losing_trades := losing; breakeven_trades := breakeven;
       win_rate := round_digits 2 win_rate_;
       total_profit := round_digits 2 total_profit_;
       total_loss := round_digits 2 total_loss_;
       net_pnl := round_digits 2 net_pnl_;
       average_profit := round_digits 2 average_profit_;
       average_loss := round_digits 2 average_loss_;
       profit_factor := round_ext 2 profit_factor_;
       max_drawdown := round_digits 2 max_drawdown_;
       average_holding_period := round_digits 1 average_holding_period_ |}
  end.

(** [PerformanceAnalyzer.generate_performance_report]. The report dict is
    either [{"error": ...}] or the full report; of the latter only the
    metrics behind its summary are kept (the breakdown, time and risk
    sections are built from the same list and cannot turn it into an error
    value). *)
Inductive Report :=
  | ReportError (message : string)
  | ReportOk (metrics : PerformanceMetrics).

Definition generate_performance_report (strategies : list BacktestStrategy) : Report :=
  match strategies with
  | [] => ReportError "No strategies to analyze"
  | _ => ReportOk (calculate_performance_metrics strategies)
  end.

(** ** core/options_strategies.py *)

Inductive OptionType := CALL | PUT.

Record OptionLeg := mkLeg {
  option_type : OptionType;
  strike : Q;
  premium : Q;
  quantity : Z;
  expiration : string
}.

(** An [OptionsStrategy] object: its constructor arguments and [self.legs]. *)
Record OptionsStrategy := mkOptionsStrategy {
  underlying_price : Q;
  strategy_label : string;
  legs : list OptionLeg
}.

(** The exceptions these methods can raise. *)
Inductive PyExn := IndexError | ValueError.

Inductive Outcome (A : Type) := Ok (a : A) | Raised (e : PyExn).
Arguments Ok {A} a.
Arguments Raised {A} e.

Definition bind {A B} (m : Outcome A) (k : A -> Outcome B) : Outcome B :=
  match m with Ok a => k a | Raised e => Raised e end.
Notation "x <- m ;; k" := (bind m (fun x => k)) (at level 61, m at next level, right associativity).

(** [self.legs[i]]. *)
Definition leg_at (s : OptionsStrategy) (i : nat) : Outcome OptionLeg :=
  match nth_error (legs s) i with Some l => Ok l | None => Raised IndexError end.

Definition maximum0 (x : Q) : Q := if Qltb x 0 then 0 else x.

(** [StrategyResult] of options_strategies.py (a different class from the
    backtesting enum of the same name). *)
Record AnalysisResult := mkAnalysis {
  breakeven_points : list Q;
  a_max_profit : Q;
  a_max_loss : Q;
  profit_probability : Q;
  payoff_at_expiration : list (Q * Q);
  a_strategy_name : string
}.

(** [CallDebitSpread]. *)
Definition CallDebitSpread (underlying_price_ : Q) : OptionsStrategy :=
  mkOptionsStrategy underlying_price_ "Call Debit Spread (Bullish)" [].

Definition CallDebitSpread_add_legs (s : OptionsStrategy)
    (lower_strike_ upper_strike_ lower_premium_ upper_premium_ : Q)
    (expiration_ : string) : OptionsStrategy :=
  mkOptionsStrategy (underlying_price s) (strategy_label s)
    [mkLeg CALL lower_strike_ lower_premium_ 1 expiration_;
     mkLeg CALL upper_strike_ upper_premium_ (-1) expiration_].

Definition CallDebitSpread_calculate_payoff (s : OptionsStrategy)
    (spot_prices : list Q) : Outcome (list Q) :=
  long_call <- leg_at s 0 ;;
  short_call <- leg_at s 1 ;;
  let net_debit := premium long_call - premium short_call in
  Ok (map (fun p => maximum0 (p - strike long_call)
                    + - maximum0 (p - strike short_call) - net_debit) spot_prices).

(** [PutDebitSpread]; note [add_legs] takes the upper strike first. *)
Definition PutDebitSpread (underlying_price_ : Q) : OptionsStrategy :=
  mkOptionsStrategy underlying_price_ "Put Debit Spread (Bearish)" [].

Definition PutDebitSpread_add_legs (s : OptionsStrategy)
    (upper_strike_ lower_strike_ upper_premium_ lower_premium_ : Q)
    (expiration_ : string) : OptionsStrategy :=
  mkOptionsStrategy (underlying_price s) (strategy_label s)
    [mkLeg PUT upper_strike_ upper_premium_ 1 expiration_;
     mkLeg PUT lower_strike_ lower_premium_ (-1) expiration_].

Definition PutDebitSpread_calculate_payoff (s : OptionsStrategy)
    (spot_prices : list Q) : Outcome (list Q) :=
  long_put <- leg_at s 0 ;;
  short_put <- leg_at s 1 ;;
  let net_debit := premium long_put - premium short_put in
  Ok (map (fun p => maximum0 (strike long_put - p)
                    + - maximum0 (strike short_put - p) - net_debit) spot_prices).

(** [np.linspace(start, stop, num)]. *)
Definition linspace (start stop : Q) (num : nat) : list Q :=
  let step := (stop - start) / inject_Z (Z.of_nat num - 1) in
  map (fun i => start + inject_Z (Z.of_nat i) * step) (seq 0 num).

(** [np.max] / [np.min]: [ValueError] on an empty array. *)
Definition np_max (l : list Q) : Outcome Q :=
  match l with
  | [] => Raised ValueError
  | x :: rest => Ok (fold_left (fun m y => if Qltb m y then y else m) rest x)
  end.

Definition np_min (l : list Q) : Outcome Q :=
  match l with
  | [] => Raised ValueError
  | x :: rest => Ok (fold_left (fun m y => if Qltb y m then y else m) rest x)
  end.

(** [OptionsStrategy._find_breakevens]: over consecutive pairs. *)
Fixpoint find_breakevens (prices payoffs : list Q) : list Q :=
  match prices, payoffs with
  | p0 :: (p1 :: _) as prest, y0 :: (y1 :: _) as yrest =>
      if Qltb (y0 * y1) 0
      then round_digits 2 (p0 - y0 * (p1 - p0) / (y1 - y0))
             :: find_breakevens prest yrest
      else find_breakevens prest yrest
  | _, _ => []
  end.

(** [OptionsStrategy._calc_profit_prob]. *)
Definition calc_profit_prob (payoffs : list Q) : Q :=
  match payoffs with
  | [] => 0
  | _ => inject_Z (Z.of_nat (List.length (filter (Qltb 0) payoffs)))
         / inject_Z (Z.of_nat (List.length payoffs))
  end.

(** [dict(zip(keys, values))]: a repeated key keeps its first position and
    takes the last value. *)
Fixpoint dict_set (k v : Q) (d : list (Q * Q)) : list (Q * Q) :=
  match d with
  | [] => [(k, v)]
  | (k', v') :: rest =>
      if Qeq_bool k k' then (k', v) :: rest else (k', v') :: dict_set k v rest
  end.

Definition dict_of_zip (keys values : list Q) : list (Q * Q) :=
  fold_left (fun d kv => dict_set (fst kv) (snd kv) d) (combine keys values) [].

(** [OptionsStrategy.analyze], given the subclass's [calculate_payoff]. *)
Definition analyze
    (calculate_payoff : OptionsStrategy -> list Q -> Outcome (list Q))
    (s : OptionsStrategy) : Outcome AnalysisResult :=
  let spot_range := linspace (underlying_price s * (7 # 10))
                             (underlying_price s * (13 # 10)) 100 in
  payoffs <- calculate_payoff s spot_range ;;
  mx <- np_max payoffs ;;
  mn <- np_min payoffs ;;
  Ok {| breakeven_points := find_breakevens spot_range payoffs;
        a_max_profit := mx; a_max_loss := mn;
        profit_probability := calc_profit_prob payoffs;
        payoff_at_expiration := dict_of_zip spot_range payoffs;
        a_strategy_name := strategy_label s |}.

(** Constructing, filling and analysing a call debit spread, and a put debit
    spread, as the callers do. *)
Definition evaluate_call_debit_spread (underlying lower upper lower_prem upper_prem : Q)
    (expiration_ : string) : Outcome AnalysisResult :=
  analyze CallDebitSpread_calculate_payoff
    (CallDebitSpread_add_legs (CallDebitSpread underlying)
       lower upper lower_prem upper_prem expiration_).

Definition evaluate_put_debit_spread (underlying lower upper lower_prem upper_prem : Q)
    (expiration_ : string) : Outcome AnalysisResult :=
  analyze PutDebitSpread_calculate_payoff
    (PutDebitSpread_add_legs (PutDebitSpread underlying)
       upper lower upper_prem lower_prem expiration_).

(** [CallCreditSpread]. *)
Definition CallCreditSpread (underlying_price_ : Q) : OptionsStrategy :=
  mkOptionsStrategy underlying_price_ "Call Credit Spread (Bearish)" [].

Definition CallCreditSpread_add_legs (s : OptionsStrategy)
    (lower_strike_ upper_strike_ lower_premium_ upper_premium_ : Q)
    (expiration_ : string) : OptionsStrategy :=
  mkOptionsStrategy (underlying_price s) (strategy_label s)
    [mkLeg CALL lower_strike_ lower_premium_ (-1) expiration_;
     mkLeg CALL upper_strike_ upper_premium_ 1 expiration_].

Definition CallCreditSpread_calculate_payoff (s : OptionsStrategy)
    (spot_prices : list Q) : Outcome (list Q) :=
  short_call <- leg_at s 0 ;;
  long_call <- leg_at s 1 ;;
  let net_credit := premium short_call - premium long_call in
  Ok (map (fun p => - maximum0 (p - strike short_call)
                    + maximum0 (p - strike long_call) + net_credit) spot_prices).

(** [PutCreditSpread]; [add_legs] takes the upper strike first. *)
Definition PutCreditSpread (underlying_price_ : Q) : OptionsStrategy :=
  mkOptionsStrategy underlying_price_ "Put Credit Spread (Bullish)" [].

Definition PutCreditSpread_add_legs (s : OptionsStrategy)
    (upper_strike_ lower_strike_ upper_premium_ lower_premium_ : Q)
    (expiration_ : string) : OptionsStrategy :=
  mkOptionsStrategy (underlying_price s) (strategy_label s)
    [mkLeg PUT upper_strike_ upper_premium_ (-1) expiration_;
     mkLeg PUT lower_strike_ lower_premium_ 1 expiration_].

Definition PutCreditSpread_calculate_payoff (s : OptionsStrategy)
    (spot_prices : list Q) : Outcome (list Q) :=
  short_put <- leg_at s 0 ;;
  long_put <- leg_at s 1 ;;
  let net_credit := premium short_put - premium long_put in
  Ok (map (fun p => - maximum0 (strike short_put - p)
                    + maximum0 (strike long_put - p) + net_credit) spot_prices).

(** [StrategyType] and [StrategyFactory.create_strategy]. The factory's
    dict covers every member of the enum, so its [ValueError] branch is
    unreachable for an argument of type [StrategyType]. *)
Inductive StrategyType :=
  CALL_DEBIT_SPREAD | CALL_CREDIT_SPREAD | PUT_DEBIT_SPREAD | PUT_CREDIT_SPREAD.

Definition create_strategy (t : StrategyType) (underlying_price_ : Q) : OptionsStrategy :=
  match t with
  | CALL_DEBIT_SPREAD => CallDebitSpread underlying_price_
  | CALL_CREDIT_SPREAD => CallCreditSpread underlying_price_
  | PUT_DEBIT_SPREAD => PutDebitSpread underlying_price_
  | PUT_CREDIT_SPREAD => PutCreditSpread underlying_price_
  end.

(** The [calculate_payoff] method of the class the factory builds. *)
Definition calculate_payoff_of (t : StrategyType)
    : OptionsStrategy -> list Q -> Outcome (list Q) :=
  match t with
  | CALL_DEBIT_SPREAD => CallDebitSpread_calculate_payoff
  | CALL_CREDIT_SPREAD => CallCreditSpread_calculate_payoff
  | PUT_DEBIT_SPREAD => PutDebitSpread_calculate_payoff
  | PUT_CREDIT_SPREAD => PutCreditSpread_calculate_payoff
  end.

(** [PerformanceAnalyzer._calculate_max_consecutive_losses]. *)
Definition is_loss (s : BacktestStrategy) : bool :=
  match result s with Some LOSS => true | _ => false end.

Fixpoint consecutive_loop (current_consecutive max_consecutive : nat)
    (l : list BacktestStrategy) : nat :=
  match l with
  | [] => max_consecutive
  | s :: rest =>
      if is_loss s then
        let c := S current_consecutive in
        consecutive_loop c (Nat.max max_consecutive c) rest
      else consecutive_loop 0 max_consecutive rest
  end.

Definition _calculate_max_consecutive_losses (strategies : list BacktestStrategy) : nat :=
  match strategies with
  | [] => 0
  | _ => consecutive_loop 0 0 (sort_by_entry strategies)
  end.

(** [PerformanceAnalyzer._analyze_strategy_breakdown]: the dict keyed by
    strategy name, in insertion order. The first loop fills [total], [wins],
    [losses], [breakeven] and [total_pnl]; the second adds [win_rate] and
    replaces [avg_pnl] and [total_pnl] by rounded values. *)
Record BreakdownEntry := mkEntry {
  b_total : Z;
  b_wins : Z;
  b_losses : Z;
  b_breakeven : Z;
  b_total_pnl : Q;
  b_avg_pnl : Q;
  b_win_rate : Q
}.

Definition empty_entry : BreakdownEntry := mkEntry 0 0 0 0 0 0 0.

Definition count_strategy (s : BacktestStrategy) (e : BreakdownEntry) : BreakdownEntry :=
  let e1 := mkEntry (b_total e + 1) (b_wins e) (b_losses e) (b_breakeven e)
                    (b_total_pnl e + or_zero (final_pnl s)) (b_avg_pnl e) (b_win_rate e) in
  match result s with
  | Some PROFIT => mkEntry (b_total e1) (b_wins e1 + 1) (b_losses e1) (b_breakeven e1)
                           (b_total_pnl e1) (b_avg_pnl e1) (b_win_rate e1)
  | Some LOSS => mkEntry (b_total e1) (b_wins e1) (b_losses e1 + 1) (b_breakeven e1)
                         (b_total_pnl e1) (b_avg_pnl e1) (b_win_rate e1)
  | _ => mkEntry (b_total e1) (b_wins e1) (b_losses e1) (b_breakeven e1 + 1)
                 (b_total_pnl e1) (b_avg_pnl e1) (b_win_rate e1)
  end.

(** [if key not in breakdown: breakdown[key] = {...}] followed by the
    updates of [breakdown[key]]. *)
Fixpoint breakdown_add (key : string) (s : BacktestStrategy)
    (d : list (string * BreakdownEntry)) : list (string * BreakdownEntry) :=
  match d with
  | [] => [(key, count_strategy s empty_entry)]
  | (k, e) :: rest =>
      if String.eqb k key then (k, count_strategy s e) :: rest
      else (k, e) :: breakdown_add key s rest
  end.

Definition finish_entry (e : BreakdownEntry) : BreakdownEntry :=
  let total := b_total e in
  mkEntry total (b_wins e) (b_losses e) (b_breakeven e)
    (round_digits 2 (b_total_pnl e))
    (if Z.ltb 0 total then round_digits 2 (b_total_pnl e / inject_Z total) else 0)
    (if Z.ltb 0 total then round_digits 2 (inject_Z (b_wins e) / inject_Z total * 100)
     else 0).

Definition _analyze_strategy_breakdown (strategies : list BacktestStrategy)
    : list (string * BreakdownEntry) :=
  map (fun kv => (fst kv, finish_entry (snd kv)))
      (fold_left (fun d s => breakdown_add (strategy_name s) s d) strategies []).

(** ** Concurrent use of the tracker

    [StrategyTracker] takes no lock. Caller threads run [add_strategy]
    while the monitoring thread runs [process_expired_strategies].
    [self.active_strategies.append(strategy)] first loads the list object
    bound to [self.active_strategies] and then calls [append] on that
    object: two bytecodes, between which another thread can run. In
    [remove_strategy] the list comprehension reads [self.active_strategies]
    and the assignment of the rebuilt list, a new list object, is a separate
    bytecode. List objects are named by a counter: [cgen] is the object
    bound to [self.active_strategies] and [cactive] its contents; each
    assignment in [remove_strategy] binds the fresh object [S cgen]. An
    object that is no longer bound is read by nobody, so an [append] on it
    has no visible effect and its contents are not kept. [pending] holds
    the records whose [add_strategy] call has not yet loaded the list (their
    [save_strategy] succeeds) and [loaded] the records whose call has loaded
    the object [o] but not yet appended, as pairs [(l, o)]. The monitoring
    thread's program counter is [ProcPhase]. The expiry scan, the
    comprehension of [remove_strategy], and one record's lookup, settlement
    and store call are each taken as one step: a list iterator sees an
    [append] made before it is exhausted, so an [append] made while the scan
    or the comprehension runs acts as one made just before it or just after
    it. *)
Inductive ProcPhase :=
  | PIdle
  | PLoop (todo processed : list loc)
  | PRemove (todo processed : list loc) (rebuilt : list loc)
  | PDone (processed : list loc).

Record Conf := mkConf {
  cheap : loc -> BacktestStrategy;
  cactive : list loc;
  cgen : nat;
  pending : list loc;
  loaded : list (loc * nat);
  phase : ProcPhase
}.


Section Concurrent.
Variable get_current_price : string -> option Q.
Variable update_strategy_result :
  string -> Q -> Z -> Q -> StrategyResult -> string -> bool.
Variable now : Z.

Inductive step : Conf -> Conf -> Prop :=
| step_add_load h act g pend1 l pend2 ld ph :
    step (mkConf h act g (pend1 ++ l :: pend2) ld ph)
         (mkConf h act g (pend1 ++ pend2) ((l, g) :: ld) ph)
| step_add_append h act g pend ld1 l o ld2 ph :
    step (mkConf h act g pend (ld1 ++ (l, o) :: ld2) ph)
         (mkConf h (if Nat.eqb o g then act ++ [l] else act) g pend (ld1 ++ ld2) ph)
| step_start h act g pend ld :
    step (mkConf h act g pend ld PIdle)
         (mkConf h act g pend ld
            (PLoop (get_expired_strategies now (mkTracker h act)) []))
| step_lookup_fails h act g pend ld l todo processed :
    get_current_price (symbol (h l)) = None ->
    step (mkConf h act g pend ld (PLoop (l :: todo) processed))
         (mkConf h act g pend ld (PLoop todo processed))
| step_update_fails h act g pend ld l todo processed p pnl r reason :
    get_current_price (symbol (h l)) = Some p ->
    calculate_strategy_result (h l) p = (pnl, r, reason) ->
    update_strategy_result (id (h l)) p now pnl r reason = false ->
    step (mkConf h act g pend ld (PLoop (l :: todo) processed))
         (mkConf (heap (write (mkTracker h act) l (complete (h l) p now pnl r reason)))
                 act g pend ld (PLoop todo processed))
| step_remove_read h act g pend ld l todo processed p pnl r reason :
    get_current_price (symbol (h l)) = Some p ->
    calculate_strategy_result (h l) p = (pnl, r, reason) ->
    update_strategy_result (id (h l)) p now pnl r reason = true ->
    let st1 := write (mkTracker h act) l (complete (h l) p now pnl r reason) in
    step (mkConf h act g pend ld (PLoop (l :: todo) processed))
         (mkConf (heap st1) act g pend ld
            (PRemove todo (processed ++ [l])
               (active_strategies (remove_strategy (id (h l)) st1))))
| step_remove_write h act g pend ld todo processed rebuilt :
    step (mkConf h act g pend ld (PRemove todo processed rebuilt))
         (mkConf h rebuilt (S g) pend ld (PLoop todo processed))
| step_finish h act g pend ld processed :
    step (mkConf h act g pend ld (PLoop [] processed))
         (mkConf h act g pend ld (PDone processed)).



End Concurrent.


(** Two records with distinct ids and symbols: [0] has expired by clock
    200, [1] has not. *)
Definition record_a : BacktestStrategy :=
  {| id := "id-a"; symbol := "AAA"; strategy_name := "Call Debit Spread";
     entry_date := 0; expiration_date := 100; entry_price := 150;
     lower_strike := 145; upper_strike := 155; lower_premium := 3;
     upper_premium := 1; contracts := 1; initial_cost := 2;
     max_profit := 8; max_loss := 2; status := ACTIVE;
     exit_price := None; exit_date := None; final_pnl := None;
     result := None; exit_reason := None |}.

Definition record_b : BacktestStrategy :=
  {| id := "id-b"; symbol := "BBB"; strategy_name := "Put Debit Spread";
     entry_date := 0; expiration_date := 1000; entry_price := 150;
     lower_strike := 145; upper_strike := 155; lower_premium := 1;
     upper_premium := 3; contracts := 1; initial_cost := 2;
     max_profit := 8; max_loss := 2; status := ACTIVE;
     exit_price := None; exit_date := None; final_pnl := None;
     result := None; exit_reason := None |}.

Definition two_records (l : loc) : BacktestStrategy :=
  match l with O => record_a | _ => record_b end.

(** ** Notions the further properties are stated with *)

(** The [strategy.final_pnl or 0] that the analyzer sums. *)
Definition pnl_of (s : BacktestStrategy) : Q := or_zero (final_pnl s).

(** The counters of one entry of the strategy breakdown are consistent. *)
Definition entry_ok (e : BreakdownEntry) : Prop :=
  (b_wins e + b_losses e + b_breakeven e = b_total e /\ 0 < b_total e /\
   0 <= b_wins e /\ 0 <= b_losses e /\ 0 <= b_breakeven e)%Z.

(** Sum of the [total] counters of a breakdown. *)
Definition total_count (d : list (string * BreakdownEntry)) : Z :=
  fold_right Z.add 0%Z (map (fun kv => b_total (snd kv)) d).

(** The breakdown dict after the first loop. *)
Definition breakdown_raw (l : list BacktestStrategy) : list (string * BreakdownEntry) :=
  fold_left (fun d s => breakdown_add (strategy_name s) s d) l [].

(** No two active locations hold objects with the same [id]. *)
Definition ids_distinct (st : Tracker) : Prop :=
  forall l1 l2, In l1 (active_strategies st) -> In l2 (active_strategies st) ->
    id (heap st l1) = id (heap st l2) -> l1 = l2.

(** ** Concrete inputs used by the properties *)

(** An expired Call Debit Spread (expiration 100) tracked at location 0. *)
Definition expired_call_spread : BacktestStrategy :=
  {| id := "strat-1"; symbol := "SPY"; strategy_name := "Call Debit Spread";
     entry_date := 0; expiration_date := 100; entry_price := 150;
     lower_strike := 145; upper_strike := 155; lower_premium := 3;
     upper_premium := 1; contracts := 1; initial_cost := 2;
     max_profit := 8; max_loss := 2; status := ACTIVE;
     exit_price := None; exit_date := None; final_pnl := None;
     result := None; exit_reason := None |}.

Definition one_expired_tracker : Tracker :=
  {| heap := fun _ => expired_call_spread; active_strategies := [0%nat] |}.

(** The two records of [two_records] in a tracker: one expired, one not. *)
Definition two_record_tracker : Tracker :=
  {| heap := two_records; active_strategies := [0%nat; 1%nat] |}.

Definition price_160 (_ : string) : option Q := Some 160.
Definition store_ok (_ : string) (_ : Q) (_ : Z) (_ : Q) (_ : StrategyResult)
  (_ : string) : bool := true.

(** The validity conditions a spread would have to satisfy. *)
Definition spread_is_valid (lower upper lower_prem upper_prem : Q) : Prop :=
  lower < upper /\ 0 < lower /\ 0 < upper /\ 0 < lower_prem /\ 0 < upper_prem.

(** A completed record settled at exactly zero P&L. *)
Definition breakeven_record : BacktestStrategy :=
  {| id := "strat-2"; symbol := "SPY"; strategy_name := "Call Debit Spread";
     entry_date := 0; expiration_date := 100; entry_price := 150;
     lower_strike := 145; upper_strike := 155; lower_premium := 3;
     upper_premium := 1; contracts := 1; initial_cost := 2;
     max_profit := 8; max_loss := 2; status := COMPLETED;
     exit_price := Some 147; exit_date := Some 200%Z; final_pnl := Some 0;
     result := Some BREAKEVEN; exit_reason := Some "Price at breakeven point" |}.

(** A completed record entered at [entry] and settled with P&L [pnl]. *)
Definition settled_record (i : string) (entry : Z) (pnl : Q) (r : StrategyResult)
  : BacktestStrategy :=
  {| id := i; symbol := "SPY"; strategy_name := "Call Debit Spread";
     entry_date := entry; expiration_date := 100; entry_price := 150;
     lower_strike := 145; upper_strike := 155; lower_premium := 3;
     upper_premium := 1; contracts := 1; initial_cost := 2;
     max_profit := 8; max_loss := 2; status := COMPLETED;
     exit_price := Some 160; exit_date := Some 200%Z; final_pnl := Some pnl;
     result := Some r; exit_reason := Some "Backtest" |}.

(** A gain of 10 entered at date 0, a loss of 5 entered at date 1 and a gain
    of 5 entered at date 2. *)
Definition gain_record : BacktestStrategy := settled_record "strat-3" 0 10 PROFIT.
Definition loss_record : BacktestStrategy := settled_record "strat-4" 1 (-5) LOSS.
Definition small_gain_record : BacktestStrategy := settled_record "strat-5" 2 5 PROFIT.

(** * Properties *)

(** ** Helper lemmas *)

Lemma Qltb_true a b : Qltb a b = true <-> a < b.
Proof.
  unfold Qltb. rewrite negb_true_iff. split; intro H.
  - apply Qnot_le_lt. intro H'. apply Qle_bool_iff in H'. congruence.
  - destruct (Qle_bool b a) eqn:E; [|reflexivity].
    apply Qle_bool_iff in E. exfalso. apply (Qlt_not_le a b); assumption.
Qed.

Lemma Qltb_false a b : Qltb a b = false <-> b <= a.
Proof.
  unfold Qltb. rewrite negb_false_iff. apply Qle_bool_iff.
Qed.

Lemma linspace_cons a b n : exists x t, linspace a b (S n) = x :: t.
Proof. unfold linspace. simpl. eexists; eexists; reflexivity. Qed.

(** The records the loop returns come from its snapshot. *)
Lemma process_loop_returned_from_todo price update now todo st acc l :
  In l (snd (process_loop price update now todo st acc)) -> In l acc \/ In l todo.
Proof.
  revert st acc. induction todo as [|x rest IH]; intros st acc H; simpl in H.
  - now left.
  - destruct (price (symbol (heap st x))) as [p|].
    + destruct (calculate_strategy_result (heap st x) p) as [[pnl r] reason].
      destruct (update _ _ _ _ _ _).
      * destruct (IH _ _ H) as [Hin|Hin].
        -- apply in_app_or in Hin as [Hin|[<-|[]]]; [now left|right; now left].
        -- right; now right.
      * destruct (IH _ _ H) as [Hin|Hin]; [now left|right; now right].
    + destruct (IH _ _ H) as [Hin|Hin]; [now left|right; now right].
Qed.

(** With every lookup and store update succeeding, each record of the
    snapshot leaves the active list, and the loop keeps expiration dates. *)
Lemma process_loop_all_succeed price update now todo st acc :
  (forall s, price s <> None) ->
  (forall a b c d e f, update a b c d e f = true) ->
  (forall l, In l (active_strategies (fst (process_loop price update now todo st acc))) ->
             In l (active_strategies st) /\ ~ In l todo) /\
  (forall l, expiration_date (heap (fst (process_loop price update now todo st acc)) l)
             = expiration_date (heap st l)).
Proof.
  intros Hprice Hupd. revert st acc.
  induction todo as [|x rest IH]; intros st acc; simpl.
  - split; [intros l Hl; split; [exact Hl | intros []] | reflexivity].
  - destruct (price (symbol (heap st x))) as [p|] eqn:Ep; [|exfalso; eapply Hprice; eassumption].
    destruct (calculate_strategy_result (heap st x) p) as [[pnl r] reason].
    rewrite Hupd.
    set (st2 := remove_strategy _ _).
    destruct (IH st2 (acc ++ [x])%list) as [IHa IHe].
    assert (Hexp : forall l, expiration_date (heap st2 l) = expiration_date (heap st l)).
    { intro l. subst st2. simpl. destruct (Nat.eqb_spec l x) as [->|]; reflexivity. }
    split.
    + intros l Hl. destruct (IHa l Hl) as [Hin Hnot].
      subst st2. simpl in Hin. apply filter_In in Hin as [Hin Hid].
      split; [exact Hin|]. intros [<-|Hr]; [|contradiction].
      rewrite Nat.eqb_refl in Hid. simpl in Hid.
      rewrite String.eqb_refl in Hid. discriminate.
    + intro l. rewrite IHe. apply Hexp.
Qed.

Lemma sumQ_losses_neg l : losses_of l <> [] -> sumQ (losses_of l) < 0.
Proof.
  assert (Hall : forall x, In x (losses_of l) -> x < 0).
  { intros x Hx. unfold losses_of in Hx. apply in_flat_map in Hx as (s & _ & Hs).
    destruct (final_pnl s) as [p|]; [|destruct Hs].
    destruct (Qltb p 0) eqn:E; [|destruct Hs].
    destruct Hs as [<-|[]]. now apply Qltb_true. }
  revert Hall. generalize (losses_of l) as ls.
  induction ls as [|x t IH]; intros Hall Hne; [congruence|].
  simpl. destruct t as [|y t'].
  - simpl. rewrite Qplus_0_r. apply Hall. now left.
  - assert (Hx : x < 0) by (apply Hall; now left).
    assert (Ht : sumQ (y :: t') < 0)
      by (apply IH; [intros z Hz; apply Hall; now right | discriminate]).
    apply (Qplus_lt_le_compat x 0 (sumQ (y :: t')) 0) in Hx;
      [|apply Qlt_le_weak; exact Ht].
    rewrite Qplus_0_l in Hx. exact Hx.
Qed.

(** One step of the drawdown loop. *)
Lemma drawdown_step_bounds peak value :
  0 <= value ->
  0 <= (if Qltb 0 (if Qltb peak value then value else peak)
        then ((if Qltb peak value then value else peak) - value)
             / (if Qltb peak value then value else peak) * 100 else 0) <= 100.
Proof.
  intro Hv. set (p := if Qltb peak value then value else peak).
  assert (Hpv : value <= p).
  { subst p. destruct (Qltb peak value) eqn:E; [apply Qle_refl|].
    now apply Qltb_false in E. }
  destruct (Qltb 0 p) eqn:Ep; [|split; discriminate].
  apply Qltb_true in Ep.
  assert (H1 : 0 <= (p - value) / p).
  { apply Qle_shift_div_l; [exact Ep|]. rewrite Qmult_0_l.
    apply (Qplus_le_l _ _ value). ring_simplify. exact Hpv. }
  assert (H2 : (p - value) / p <= 1).
  { apply Qle_shift_div_r; [exact Ep|].
    apply (Qplus_le_l _ _ value). ring_simplify.
    rewrite <- (Qplus_0_r p) at 1. apply Qplus_le_compat; [apply Qle_refl | exact Hv]. }
  split.
  - apply (Qmult_le_compat_r 0 _ 100) in H1; [|discriminate]. now rewrite Qmult_0_l in H1.
  - apply (Qmult_le_compat_r _ 1 100) in H2; [|discriminate]. now rewrite Qmult_1_l in H2.
Qed.

(** ** Claims *)

(** C1: a Call Debit Spread created with strikes 145/155, premiums 3.0/1.0
    and one contract has initial_cost 2.0, max_profit 8.0 and max_loss 2.0;
    settling it at 160 gives pnl 8.0 (PROFIT), at 140 gives -2.0 (LOSS) and
    at 147 gives 0 (BREAKEVEN). *)
Lemma C1_call_debit_scenario new_id now symbol_ entry_price_ expiration_date_ :
  match add_strategy_for_backtesting new_id now (fun _ => true) symbol_
          "Call Debit Spread" entry_price_ 145 155 3 1 1 expiration_date_ with
  | Some s =>
      initial_cost s == 2 /\ max_profit s == 8 /\ max_loss s == 2 /\
      (let '(pnl, r, _) := calculate_strategy_result s 160 in pnl == 8 /\ r = PROFIT) /\
      (let '(pnl, r, _) := calculate_strategy_result s 140 in pnl == -2 /\ r = LOSS) /\
      (let '(pnl, r, _) := calculate_strategy_result s 147 in pnl == 0 /\ r = BREAKEVEN)
  | None => False
  end.
Proof. vm_compute. repeat split; reflexivity. Qed.

(** C8: settling a record whose kind is neither "Call Debit Spread" nor
    "Put Debit Spread" yields pnl 0, BREAKEVEN and a non-empty reason. *)
Lemma C8_unknown_kind_breakeven s current_price :
  strategy_name s <> "Call Debit Spread" ->
  strategy_name s <> "Put Debit Spread" ->
  let '(pnl, r, reason) := calculate_strategy_result s current_price in
  pnl == 0 /\ r = BREAKEVEN /\ reason <> "".
Proof.
  intros Hc Hp. unfold calculate_strategy_result.
  apply String.eqb_neq in Hc, Hp. rewrite Hc, Hp.
  split; [reflexivity | split; [reflexivity | discriminate]].
Qed.

Lemma C8_unknown_kind_breakeven_witness :
  let s := {| id := "id-1"; symbol := "SPY"; strategy_name := "Iron Condor";
              entry_date := 0; expiration_date := 10; entry_price := 150;
              lower_strike := 145; upper_strike := 155; lower_premium := 3;
              upper_premium := 1; contracts := 1; initial_cost := 2;
              max_profit := 8; max_loss := 2; status := ACTIVE;
              exit_price := None; exit_date := None; final_pnl := None;
              result := None; exit_reason := None |} in
  strategy_name s <> "Call Debit Spread" /\
  strategy_name s <> "Put Debit Spread" /\
  (let '(pnl, r, reason) := calculate_strategy_result s 160 in
   pnl == 0 /\ r = BREAKEVEN /\ reason <> "").
Proof.
  intro s. split; [discriminate|]. split; [discriminate|].
  apply C8_unknown_kind_breakeven; discriminate.
Defined.

(** C10: every record created by add_strategy_for_backtesting has
    initial_cost = max_loss and max_profit + max_loss equal to the strike
    width times the contract count. *)
Lemma C10_created_record_cost_invariant new_id now tracker_add symbol_ name
    entry_price_ lo hi lo_prem hi_prem contracts_ expiration_date_ s :
  add_strategy_for_backtesting new_id now tracker_add symbol_ name entry_price_
    lo hi lo_prem hi_prem contracts_ expiration_date_ = Some s ->
  initial_cost s = max_loss s /\
  max_profit s + max_loss s == (upper_strike s - lower_strike s) * inject_Z (contracts s).
Proof.
  unfold add_strategy_for_backtesting.
  destruct (String.eqb name "Call Debit Spread");
    [|destruct (String.eqb name "Put Debit Spread"); [|discriminate]];
    (match goal with |- context [if tracker_add ?x then _ else _] =>
       destruct (tracker_add x); [|discriminate] end);
    intro H; injection H as <-; simpl; split; (reflexivity || ring).
Qed.

Lemma C10_created_record_cost_invariant_witness :
  exists s,
    add_strategy_for_backtesting "id-1" 0 (fun _ => true) "SPY" "Put Debit Spread"
      150 145 155 1 3 2 10 = Some s /\
    initial_cost s = max_loss s /\
    max_profit s + max_loss s == (upper_strike s - lower_strike s) * inject_Z (contracts s).
Proof.
  eexists. split; [reflexivity|].
  apply (C10_created_record_cost_invariant "id-1" 0 (fun _ => true) "SPY"
           "Put Debit Spread" 150 145 155 1 3 2 10).
  reflexivity.
Defined.

(** C9: the report of an empty list is the explicit "no strategies" error
    value. *)
Lemma C9_empty_report_is_error :
  generate_performance_report [] = ReportError "No strategies to analyze".
Proof. reflexivity. Qed.

(** C2: when the store update fails ([update_strategy_result] returns
    False), the record stays in the active list and is not returned, but the
    in-place assignments made before the store call are not undone: the
    active record already carries status COMPLETED, exit_price, final_pnl
    and result. *)
Lemma C2_failed_update_leaves_completed_fields :
  let '(st', returned) :=
    process_expired_strategies (fun _ => Some 160) (fun _ _ _ _ _ _ => false)
      200 one_expired_tracker in
  returned = [] /\ active_strategies st' = [0%nat] /\
  status (heap st' 0%nat) = COMPLETED /\ exit_price (heap st' 0%nat) = Some 160 /\
  result (heap st' 0%nat) = Some PROFIT /\ exit_date (heap st' 0%nat) = Some 200%Z /\
  heap st' 0%nat <> heap one_expired_tracker 0%nat.
Proof. vm_compute. repeat split; try reflexivity. discriminate. Qed.

(** C3: with every price lookup and store update succeeding, the records
    completed by a first call are no longer active, a second call at the
    same clock returns nothing, and a second call at any later clock never
    returns a record of the first call. *)
Theorem C3_process_expired_no_double_settlement price update now st :
  (forall s, price s <> None) ->
  (forall a b c d e f, update a b c d e f = true) ->
  let r1 := process_expired_strategies price update now st in
  (forall l, In l (snd r1) -> ~ In l (active_strategies (fst r1))) /\
  snd (process_expired_strategies price update now (fst r1)) = [] /\
  (forall now2 l, In l (snd (process_expired_strategies price update now2 (fst r1))) ->
                  ~ In l (snd r1)).
Proof.
  intros Hprice Hupd r1.
  destruct (process_loop_all_succeed price update now
              (get_expired_strategies now st) st [] Hprice Hupd) as [Hact Hexp].
  fold (process_expired_strategies price update now st) in Hact, Hexp.
  fold r1 in Hact, Hexp.
  assert (Hdone : forall l, In l (snd r1) -> ~ In l (active_strategies (fst r1))).
  { intros l Hl Ha. apply (Hact l Ha).
    apply process_loop_returned_from_todo in Hl as [[]|Hl]. exact Hl. }
  split; [exact Hdone|]. split.
  - unfold process_expired_strategies at 1.
    replace (get_expired_strategies now (fst r1)) with (@nil loc); [reflexivity|].
    unfold get_expired_strategies.
    symmetry. rewrite (filter_ext_in _ (fun _ => false)); [apply filter_false|].
    intros l Hl.
    destruct (Hact l Hl) as [Hin Hnot].
    destruct (Z.leb (expiration_date (heap (fst r1) l)) now) eqn:E; [|reflexivity].
    exfalso. apply Hnot. unfold get_expired_strategies. apply filter_In.
    split; [exact Hin|]. rewrite <- Hexp. exact E.
  - intros now2 l Hl H1.
    apply process_loop_returned_from_todo in Hl as [[]|Hl].
    unfold get_expired_strategies in Hl. apply filter_In in Hl as [Hl _].
    exact (Hdone l H1 Hl).
Qed.

Lemma C3_process_expired_no_double_settlement_witness :
  (forall s, price_160 s <> None) /\
  (forall a b c d e f, store_ok a b c d e f = true) /\
  (let r1 := process_expired_strategies price_160 store_ok 200 one_expired_tracker in
   (forall l, In l (snd r1) -> ~ In l (active_strategies (fst r1))) /\
   snd (process_expired_strategies price_160 store_ok 200 (fst r1)) = [] /\
   (forall now2 l, In l (snd (process_expired_strategies price_160 store_ok now2 (fst r1))) ->
                   ~ In l (snd r1))).
Proof.
  split; [intros s; discriminate|]. split; [intros; reflexivity|].
  apply C3_process_expired_no_double_settlement; [intros s; discriminate | intros; reflexivity].
Defined.

(** C4 (as stated): every invalid call debit spread is rejected with a
    raised error before a payoff is computed. False: strikes 155/145
    (lower above upper) are analysed without any error. *)
Lemma C4_inverted_strikes_not_rejected :
  ~ (forall underlying lower upper lower_prem upper_prem expiration_,
       ~ spread_is_valid lower upper lower_prem upper_prem ->
       exists err, evaluate_call_debit_spread underlying lower upper lower_prem
                     upper_prem expiration_ = Raised err).
Proof.
  intro H.
  destruct (H 150 155 145 3 1 "2024-01-19") as [err Herr].
  - intros [Hlt _]. vm_compute in Hlt. discriminate.
  - vm_compute in Herr. discriminate.
Qed.

(** C4 (amended): the spread classes validate nothing. For every
    underlying price, strikes and premiums (whatever their order or sign),
    building and analysing a call debit spread or a put debit spread raises
    nothing and returns an analysis result. *)
Theorem C4_spreads_never_rejected underlying lower upper lower_prem upper_prem expiration_ :
  (exists r, evaluate_call_debit_spread underlying lower upper lower_prem upper_prem
               expiration_ = Ok r /\ a_strategy_name r = "Call Debit Spread (Bullish)") /\
  (exists r, evaluate_put_debit_spread underlying lower upper lower_prem upper_prem
               expiration_ = Ok r /\ a_strategy_name r = "Put Debit Spread (Bearish)").
Proof.
  unfold evaluate_call_debit_spread, evaluate_put_debit_spread, analyze.
  cbn [bind CallDebitSpread_calculate_payoff PutDebitSpread_calculate_payoff leg_at
       CallDebitSpread_add_legs PutDebitSpread_add_legs CallDebitSpread PutDebitSpread
       nth_error legs underlying_price strategy_label].
  destruct (linspace_cons (underlying * (7 # 10)) (underlying * (13 # 10)) 99)
    as (x & t & Heq).
  rewrite Heq. cbn [map np_max np_min bind].
  split; eexists; split; reflexivity.
Qed.

Lemma profit_factor_nonempty l :
  l <> [] ->
  profit_factor (calculate_performance_metrics l) =
  round_ext 2
    (if Qltb 0 (match losses_of l with [] => 0 | _ => Qabs (sumQ (losses_of l)) end)
     then Fin ((match profits_of l with [] => 0 | _ => sumQ (profits_of l) end)
               / (match losses_of l with [] => 0 | _ => Qabs (sumQ (losses_of l)) end))
     else PosInf).
Proof. destruct l; [congruence | reflexivity]. Qed.

(** C5 (as stated): profit_factor is 0 for an empty list and, for a
    non-empty list, +inf only when total_profit > 0. False: a single record
    settled at exactly 0 has total_profit 0 and total_loss 0, and the code's
    [if total_loss > 0 else float('inf')] gives +inf. *)
Lemma C5_breakeven_only_gives_infinite_profit_factor :
  ~ (profit_factor (calculate_performance_metrics []) = Fin 0 /\
     forall l, l <> [] ->
       profit_factor (calculate_performance_metrics l) = PosInf ->
       0 < total_profit (calculate_performance_metrics l)).
Proof.
  intros [_ H].
  specialize (H [breakeven_record] ltac:(discriminate) eq_refl).
  vm_compute in H. discriminate.
Qed.

(** C5 (amended): profit_factor is 0 for an empty list; for a non-empty
    list it is +inf exactly when no record has a negative final_pnl
    (total_loss = 0), whatever total_profit is. *)
Theorem C5_profit_factor_infinite_iff_no_loss :
  profit_factor (calculate_performance_metrics []) = Fin 0 /\
  forall l, l <> [] ->
    (profit_factor (calculate_performance_metrics l) = PosInf <-> losses_of l = []).
Proof.
  split; [reflexivity|]. intros l Hne. rewrite (profit_factor_nonempty l Hne).
  destruct (losses_of l) as [|x t] eqn:El.
  - split; reflexivity.
  - assert (Hneg : sumQ (x :: t) < 0)
      by (rewrite <- El; apply sumQ_losses_neg; congruence).
    assert (Hpos : Qltb 0 (Qabs (sumQ (x :: t))) = true).
    { apply Qltb_true. rewrite Qabs_neg by (apply Qlt_le_weak; exact Hneg).
      apply Qopp_lt_compat in Hneg. exact Hneg. }
    change (match x :: t with [] => 0 | _ => Qabs (sumQ (x :: t)) end)
      with (Qabs (sumQ (x :: t))).
    rewrite Hpos. cbn [round_ext].
    split; intro H; discriminate.
Qed.

Lemma drawdown_loop_bounds peak max_dd values :
  0 <= max_dd ->
  0 <= drawdown_loop peak max_dd values /\
  (max_dd <= 100 -> Forall (fun v => 0 <= v) values ->
   drawdown_loop peak max_dd values <= 100).
Proof.
  revert peak max_dd. induction values as [|v rest IH]; intros peak max_dd H0.
  - split; [exact H0 | intros H100 _; exact H100].
  - simpl.
    set (p := if Qltb peak v then v else peak).
    set (d := if Qltb 0 p then (p - v) / p * 100 else 0).
    set (m := if Qltb max_dd d then d else max_dd).
    assert (Hm0 : 0 <= m).
    { subst m. destruct (Qltb max_dd d) eqn:E; [|exact H0].
      apply Qltb_true in E. apply Qlt_le_weak. eapply Qle_lt_trans; eassumption. }
    destruct (IH p m Hm0) as [IHlo IHhi].
    split; [exact IHlo|].
    intros H100 Hall. inversion Hall as [|? ? Hv Hrest]; subst.
    apply IHhi; [|exact Hrest].
    subst m. destruct (Qltb max_dd d); [|exact H100].
    exact (proj2 (drawdown_step_bounds peak v Hv)).
Qed.

(** C6: the max drawdown of the cumulative P&L (ordered by entry_date) is
    at least 0, and at most 100 when every cumulative value is
    non-negative. *)
Theorem C6_max_drawdown_bounds strategies :
  0 <= _calculate_max_drawdown (_calculate_cumulative_pnl strategies) /\
  (Forall (fun v => 0 <= v) (_calculate_cumulative_pnl strategies) ->
   _calculate_max_drawdown (_calculate_cumulative_pnl strategies) <= 100).
Proof.
  destruct (_calculate_cumulative_pnl strategies) as [|v rest].
  - split; [apply Qle_refl | intros _; discriminate].
  - unfold _calculate_max_drawdown.
    destruct (drawdown_loop_bounds v 0 (v :: rest) (Qle_refl 0)) as [Hlo Hhi].
    split; [exact Hlo | intro Hall; apply Hhi; [discriminate | exact Hall]].
Qed.

Lemma C6_max_drawdown_bounds_witness :
  _calculate_cumulative_pnl [gain_record; loss_record] = [10; 5] /\
  Forall (fun v => 0 <= v) (_calculate_cumulative_pnl [gain_record; loss_record]) /\
  _calculate_max_drawdown (_calculate_cumulative_pnl [gain_record; loss_record]) == 50 /\
  0 <= _calculate_max_drawdown (_calculate_cumulative_pnl [gain_record; loss_record]) /\
  _calculate_max_drawdown (_calculate_cumulative_pnl [gain_record; loss_record]) <= 100.
Proof.
  assert (Hf : Forall (fun v => 0 <= v)
                 (_calculate_cumulative_pnl [gain_record; loss_record]))
    by (vm_compute; repeat constructor; discriminate).
  split; [vm_compute; reflexivity|].
  split; [exact Hf|].
  split; [vm_compute; reflexivity|].
  destruct (C6_max_drawdown_bounds [gain_record; loss_record]) as [Hlo Hhi].
  split; [exact Hlo | exact (Hhi Hf)].
Defined.

(** ** The concurrent tracker *)


Section Invariant.
Variable get_current_price : string -> option Q.
Variable update_strategy_result :
  string -> Q -> Z -> Q -> StrategyResult -> string -> bool.
Variable now : Z.
Variable h0 : loc -> BacktestStrategy.
Variable adders : list loc.
Hypothesis adders_nodup : NoDup adders.
Hypothesis adders_ids : forall l1 l2, In l1 adders -> In l2 adders ->
                                      id (h0 l1) = id (h0 l2) -> l1 = l2.









End Invariant.





(** ** Further properties *)

Lemma Qleb_true a b : Qleb a b = true <-> a <= b.
Proof. apply Qle_bool_iff. Qed.

Lemma Qleb_false a b : Qleb a b = false <-> b < a.
Proof.
  unfold Qleb. split; intro H.
  - apply Qnot_le_lt. intro H'. apply Qle_bool_iff in H'. congruence.
  - destruct (Qle_bool a b) eqn:E; [|reflexivity].
    apply Qle_bool_iff in E. exfalso. apply (Qlt_not_le b a); assumption.
Qed.

Ltac qcases :=
  repeat match goal with
  | |- context[Qleb ?a ?b] =>
      let E := fresh "E" in
      destruct (Qleb a b) eqn:E; [apply Qleb_true in E | apply Qleb_false in E]
  | |- context[Qltb ?a ?b] =>
      let E := fresh "E" in
      destruct (Qltb a b) eqn:E; [apply Qltb_true in E | apply Qltb_false in E]
  end.

(** The records [add_strategy_for_backtesting] creates. *)
Lemma add_strategy_for_backtesting_some new_id now tracker_add symbol_ name
    entry_price_ lower upper lower_prem upper_prem c expiration_date_ r :
  add_strategy_for_backtesting new_id now tracker_add symbol_ name
    entry_price_ lower upper lower_prem upper_prem c expiration_date_ = Some r ->
  lower_strike r = lower /\ upper_strike r = upper /\ contracts r = c /\
  strategy_name r = name /\
  ((name = "Call Debit Spread" /\
    initial_cost r = (lower_prem - upper_prem) * inject_Z c /\
    max_profit r = (upper - lower - (lower_prem - upper_prem)) * inject_Z c /\
    max_loss r = (lower_prem - upper_prem) * inject_Z c) \/
   (name = "Put Debit Spread" /\
    initial_cost r = (upper_prem - lower_prem) * inject_Z c /\
    max_profit r = (upper - lower - (upper_prem - lower_prem)) * inject_Z c /\
    max_loss r = (upper_prem - lower_prem) * inject_Z c)).
Proof.
  unfold add_strategy_for_backtesting.
  destruct (String.eqb_spec name "Call Debit Spread") as [Hc|Hc];
  [|destruct (String.eqb_spec name "Put Debit Spread") as [Hp|Hp]].
  - destruct (tracker_add _); intro H; inversion H; subst; simpl;
      repeat split; left; repeat split.
  - destruct (tracker_add _); intro H; inversion H; subst; simpl;
      repeat split; right; repeat split.
  - discriminate.
Qed.

Lemma settlement_call r p :
  strategy_name r = "Call Debit Spread" ->
  calculate_strategy_result r p =
    (if Qleb (upper_strike r) p then (max_profit r, PROFIT, "Price above upper strike - max profit")
     else if Qleb p (lower_strike r) then (- max_loss r, LOSS, "Price below lower strike - max loss")
     else let pnl := (p - lower_strike r - initial_cost r) * inject_Z (contracts r) in
          if Qltb 0 pnl then (pnl, PROFIT, "Price between strikes - partial profit")
          else if Qltb pnl 0 then (pnl, LOSS, "Price between strikes - partial loss")
          else (pnl, BREAKEVEN, "Price at breakeven point")).
Proof. intro H. unfold calculate_strategy_result. rewrite H. reflexivity. Qed.

Lemma settlement_put r p :
  strategy_name r = "Put Debit Spread" ->
  calculate_strategy_result r p =
    (if Qleb p (lower_strike r) then (max_profit r, PROFIT, "Price below lower strike - max profit")
     else if Qleb (upper_strike r) p then (- max_loss r, LOSS, "Price above upper strike - max loss")
     else let pnl := (upper_strike r - p - initial_cost r) * inject_Z (contracts r) in
          if Qltb 0 pnl then (pnl, PROFIT, "Price between strikes - partial profit")
          else if Qltb pnl 0 then (pnl, LOSS, "Price between strikes - partial loss")
          else (pnl, BREAKEVEN, "Price at breakeven point")).
Proof. intro H. unfold calculate_strategy_result. rewrite H. reflexivity. Qed.

(** Settlement: when [max_profit] and [max_loss] are both positive, the
    result label agrees with the sign of the P&L: [PROFIT] exactly when it
    is positive, [LOSS] exactly when negative, [BREAKEVEN] exactly at 0. *)
Theorem settlement_label_matches_sign s p :
  0 < max_profit s -> 0 < max_loss s ->
  let '(pnl, r, _) := calculate_strategy_result s p in
  (r = PROFIT <-> 0 < pnl) /\ (r = LOSS <-> pnl < 0) /\ (r = BREAKEVEN <-> pnl == 0).
Proof.
  intros Hmp Hml. unfold calculate_strategy_result.
  destruct (String.eqb (strategy_name s) "Call Debit Spread");
  [|destruct (String.eqb (strategy_name s) "Put Debit Spread")];
  qcases; repeat split; intro H; try discriminate; try reflexivity; try lra.
Qed.

Lemma settlement_label_matches_sign_witness :
  0 < max_profit expired_call_spread /\ 0 < max_loss expired_call_spread /\
  (let '(pnl, r, _) := calculate_strategy_result expired_call_spread 150 in
   (r = PROFIT <-> 0 < pnl) /\ (r = LOSS <-> pnl < 0) /\ (r = BREAKEVEN <-> pnl == 0)).
Proof.
  split; [reflexivity|]. split; [reflexivity|].
  apply (settlement_label_matches_sign expired_call_spread 150); reflexivity.
Defined.

(** Settlement of a one-contract record created by
    [add_strategy_for_backtesting] with [lower <= upper]: the P&L lies
    between [-max_loss] and [max_profit] at every price. *)
Theorem settlement_within_caps_one_contract new_id now tracker_add symbol_ name
    entry_price_ lower upper lower_prem upper_prem expiration_date_ r p :
  lower <= upper ->
  add_strategy_for_backtesting new_id now tracker_add symbol_ name
    entry_price_ lower upper lower_prem upper_prem 1 expiration_date_ = Some r ->
  - max_loss r <= fst (fst (calculate_strategy_result r p)) <= max_profit r.
Proof.
  intros Hlu Hadd.
  destruct (add_strategy_for_backtesting_some _ _ _ _ _ _ _ _ _ _ _ _ _ Hadd)
    as (Hl & Hu & Hc & Hn & [(Hname & Hic & Hmp & Hml)|(Hname & Hic & Hmp & Hml)]).
  - rewrite settlement_call by congruence. rewrite Hl, Hu, Hc, Hic, Hmp, Hml.
    change (inject_Z 1) with 1. cbv zeta; qcases; simpl; lra.
  - rewrite settlement_put by congruence. rewrite Hl, Hu, Hc, Hic, Hmp, Hml.
    change (inject_Z 1) with 1. cbv zeta; qcases; simpl; lra.
Qed.

Lemma settlement_within_caps_one_contract_witness :
  exists r,
    add_strategy_for_backtesting "id-1" 0 (fun _ => true) "SPY" "Call Debit Spread"
      150 145 155 3 1 1 10 = Some r /\
    - max_loss r <= fst (fst (calculate_strategy_result r 152)) <= max_profit r.
Proof.
  eexists. split; [reflexivity|].
  apply (settlement_within_caps_one_contract "id-1" 0 (fun _ => true) "SPY"
           "Call Debit Spread" 150 145 155 3 1 10 _ 152); [discriminate | reflexivity].
Defined.

(** Settlement of a one-contract record created by
    [add_strategy_for_backtesting] with [lower <= upper]: the P&L does not
    decrease with the price for a call debit spread and does not increase
    with it for a put debit spread. *)
Theorem settlement_monotone_one_contract new_id now tracker_add symbol_ name
    entry_price_ lower upper lower_prem upper_prem expiration_date_ r p1 p2 :
  lower <= upper ->
  add_strategy_for_backtesting new_id now tracker_add symbol_ name
    entry_price_ lower upper lower_prem upper_prem 1 expiration_date_ = Some r ->
  p1 <= p2 ->
  (name = "Call Debit Spread" ->
   fst (fst (calculate_strategy_result r p1)) <= fst (fst (calculate_strategy_result r p2))) /\
  (name = "Put Debit Spread" ->
   fst (fst (calculate_strategy_result r p2)) <= fst (fst (calculate_strategy_result r p1))).
Proof.
  intros Hlu Hadd Hp.
  destruct (add_strategy_for_backtesting_some _ _ _ _ _ _ _ _ _ _ _ _ _ Hadd)
    as (Hl & Hu & Hc & Hn & [(Hname & Hic & Hmp & Hml)|(Hname & Hic & Hmp & Hml)]);
  rewrite Hname in Hn; split; intro Hn'; rewrite Hname in Hn'; try discriminate.
  - rewrite !settlement_call by assumption. rewrite Hl, Hu, Hc, Hic, Hmp, Hml.
    change (inject_Z 1) with 1. cbv zeta; qcases; simpl; lra.
  - rewrite !settlement_put by assumption. rewrite Hl, Hu, Hc, Hic, Hmp, Hml.
    change (inject_Z 1) with 1. cbv zeta; qcases; simpl; lra.
Qed.

Lemma settlement_monotone_one_contract_witness :
  exists r,
    add_strategy_for_backtesting "id-1" 0 (fun _ => true) "SPY" "Put Debit Spread"
      150 145 155 1 3 1 10 = Some r /\
    ("Put Debit Spread" = "Call Debit Spread" ->
     fst (fst (calculate_strategy_result r 146)) <= fst (fst (calculate_strategy_result r 150))) /\
    ("Put Debit Spread" = "Put Debit Spread" ->
     fst (fst (calculate_strategy_result r 150)) <= fst (fst (calculate_strategy_result r 146))).
Proof.
  eexists. split; [reflexivity|].
  apply (settlement_monotone_one_contract "id-1" 0 (fun _ => true) "SPY"
           "Put Debit Spread" 150 145 155 1 3 10 _ 146 150);
    [discriminate | reflexivity | discriminate].
Defined.

(** Settlement of a multi-contract call debit spread: between the strikes
    the P&L is [(price - lower - initial_cost) * contracts] with
    [initial_cost] already scaled by [contracts], so for a price less than
    [debit * (contracts - 1)] above the lower strike it is below
    [-max_loss], the value settled below the lower strike. *)
Theorem settlement_below_max_loss_multi_contract new_id now tracker_add symbol_
    entry_price_ lower upper lower_prem upper_prem c expiration_date_ r p :
  add_strategy_for_backtesting new_id now tracker_add symbol_ "Call Debit Spread"
    entry_price_ lower upper lower_prem upper_prem c expiration_date_ = Some r ->
  lower < p < upper ->
  0 < inject_Z c ->
  p - lower < (lower_prem - upper_prem) * (inject_Z c - 1) ->
  fst (fst (calculate_strategy_result r p)) < - max_loss r.
Proof.
  intros Hadd [Hpl Hpu] Hc Hgap.
  destruct (add_strategy_for_backtesting_some _ _ _ _ _ _ _ _ _ _ _ _ _ Hadd)
    as (Hl & Hu & Hcc & Hn & [(Hname & Hic & Hmp & Hml)|(Hname & _)]); [|discriminate].
  rewrite settlement_call by assumption. rewrite Hl, Hu, Hcc, Hic, Hml.
  cbv zeta; qcases; simpl; try lra; nra.
Qed.

Lemma settlement_below_max_loss_multi_contract_witness :
  exists r,
    add_strategy_for_backtesting "id-1" 0 (fun _ => true) "SPY" "Call Debit Spread"
      150 100 110 5 2 2 10 = Some r /\
    fst (fst (calculate_strategy_result r 101)) < - max_loss r.
Proof.
  eexists. split; [reflexivity|].
  apply (settlement_below_max_loss_multi_contract "id-1" 0 (fun _ => true) "SPY"
           150 100 110 5 2 2 10 _ 101); [reflexivity | split; reflexivity | reflexivity | reflexivity].
Defined.

Ltac qhyps :=
  repeat match goal with
  | H : Qltb _ _ = true |- _ => apply Qltb_true in H
  | H : Qltb _ _ = false |- _ => apply Qltb_false in H
  | H : Qleb _ _ = true |- _ => apply Qleb_true in H
  | H : Qleb _ _ = false |- _ => apply Qleb_false in H
  end.

Lemma Qltb_comp a b a' b' : a == a' -> b == b' -> Qltb a b = Qltb a' b'.
Proof.
  intros Ha Hb. destruct (Qltb a b) eqn:E1, (Qltb a' b') eqn:E2; try reflexivity;
  qhyps; exfalso; lra.
Qed.

Lemma round_half_even_comp x y : x == y -> round_half_even x = round_half_even y.
Proof.
  intro H. unfold round_half_even. rewrite (Qfloor_comp x y H).
  rewrite (Qltb_comp (x - inject_Z (Qfloor y)) (1 # 2) (y - inject_Z (Qfloor y)) (1 # 2))
    by lra.
  rewrite (Qltb_comp (1 # 2) (x - inject_Z (Qfloor y)) (1 # 2) (y - inject_Z (Qfloor y)))
    by lra.
  reflexivity.
Qed.

Lemma round_digits_comp n x y : x == y -> round_digits n x = round_digits n y.
Proof.
  intro H. unfold round_digits. f_equal. f_equal. apply round_half_even_comp.
  rewrite H. reflexivity.
Qed.

Lemma round_half_even_cases y :
  round_half_even y = Qfloor y \/
  (round_half_even y = (Qfloor y + 1)%Z /\ inject_Z (Qfloor y) < y).
Proof.
  unfold round_half_even. cbv zeta. qcases.
  - now left.
  - right. split; [reflexivity | lra].
  - destruct (Z.even (Qfloor y)); [now left | right; split; [reflexivity | lra]].
Qed.

Lemma round_half_even_ge a y : inject_Z a <= y -> (a <= round_half_even y)%Z.
Proof.
  intro H. apply Qfloor_resp_le in H. rewrite Qfloor_Z in H.
  destruct (round_half_even_cases y) as [->|[-> _]]; lia.
Qed.

Lemma round_half_even_le b y : y <= inject_Z b -> (round_half_even y <= b)%Z.
Proof.
  intro H. pose proof (Qfloor_resp_le _ _ H) as Hf. rewrite Qfloor_Z in Hf.
  destruct (round_half_even_cases y) as [->|[-> Hlt]]; [exact Hf|].
  assert (Hq : inject_Z (Qfloor y) < inject_Z b) by (eapply Qlt_le_trans; eassumption).
  rewrite <- Zlt_Qlt in Hq. lia.
Qed.

Lemma scale_pos n : 0 < inject_Z (10 ^ Z.of_nat n).
Proof.
  change 0 with (inject_Z 0). rewrite <- Zlt_Qlt. apply Z.pow_pos_nonneg; lia.
Qed.

Lemma round_digits_nonneg n x : 0 <= x -> 0 <= round_digits n x.
Proof.
  intro Hx. unfold round_digits. pose proof (scale_pos n) as Hs.
  set (s := inject_Z (10 ^ Z.of_nat n)) in *.
  apply Qle_shift_div_l; [exact Hs|]. rewrite Qmult_0_l.
  change 0 with (inject_Z 0). rewrite <- Zle_Qle. apply round_half_even_ge.
  change (inject_Z 0) with 0. apply Qmult_le_0_compat; [exact Hx | apply Qlt_le_weak, Hs].
Qed.

Lemma round_digits_nonpos n x : x <= 0 -> round_digits n x <= 0.
Proof.
  intro Hx. unfold round_digits. pose proof (scale_pos n) as Hs.
  set (s := inject_Z (10 ^ Z.of_nat n)) in *.
  apply Qle_shift_div_r; [exact Hs|]. rewrite Qmult_0_l.
  change 0 with (inject_Z 0). rewrite <- Zle_Qle. apply round_half_even_le.
  change (inject_Z 0) with 0.
  setoid_replace (x * s) with (- ((- x) * s)) by ring.
  apply (Qopp_le_compat 0). apply Qmult_le_0_compat; [lra | apply Qlt_le_weak, Hs].
Qed.

Lemma round_digits2_percent x : 0 <= x <= 100 -> 0 <= round_digits 2 x <= 100.
Proof.
  intros [H0 H1]. unfold round_digits.
  change (inject_Z (10 ^ Z.of_nat 2)) with 100.
  assert (Hlo : (0 <= round_half_even (x * 100))%Z)
    by (apply round_half_even_ge; change (inject_Z 0) with 0; lra).
  assert (Hhi : (round_half_even (x * 100) <= 10000)%Z)
    by (apply round_half_even_le; change (inject_Z 10000) with 10000; lra).
  rewrite Zle_Qle in Hlo, Hhi. change (inject_Z 0) with 0 in Hlo.
  change (inject_Z 10000) with 10000 in Hhi.
  unfold Qdiv. change (/ 100) with (1 # 100). lra.
Qed.

Lemma count_results_le l :
  (List.length (filter (fun s => match result s with Some r' => StrategyResult_eqb r' PROFIT | None => false end) l)
   + List.length (filter (fun s => match result s with Some r' => StrategyResult_eqb r' LOSS | None => false end) l)
   + List.length (filter (fun s => match result s with Some r' => StrategyResult_eqb r' BREAKEVEN | None => false end) l)
   <= List.length l)%nat.
Proof.
  induction l as [|s l IH]; simpl; [lia|].
  destruct (result s) as [[| |]|]; simpl; lia.
Qed.

Lemma win_fraction_bounds (w t : Z) :
  (0 <= w)%Z -> (w <= t)%Z -> (0 < t)%Z ->
  0 <= inject_Z w / inject_Z t * 100 <= 100.
Proof.
  intros Hw Hwt Ht. rewrite Zle_Qle in Hw, Hwt. rewrite Zlt_Qlt in Ht.
  change (inject_Z 0) with 0 in Hw, Ht.
  assert (H0 : 0 <= inject_Z w / inject_Z t)
    by (apply Qle_shift_div_l; [exact Ht | lra]).
  assert (H1 : inject_Z w / inject_Z t <= 1)
    by (apply Qle_shift_div_r; [exact Ht | lra]).
  lra.
Qed.

(** [calculate_performance_metrics]: the win, loss and breakeven counts are
    non-negative and add up to at most [total_trades], which is the number
    of records, and [win_rate] lies in [[0, 100]]. *)
Theorem metrics_counts_and_win_rate l :
  let m := calculate_performance_metrics l in
  (0 <= winning_trades m)%Z /\ (0 <= losing_trades m)%Z /\ (0 <= breakeven_trades m)%Z /\
  (winning_trades m + losing_trades m + breakeven_trades m <= total_trades m)%Z /\
  total_trades m = Z.of_nat (List.length l) /\
  0 <= win_rate m <= 100.
Proof.
  destruct l as [|a l'] eqn:HL.
  - cbn. repeat split; try lia; discriminate.
  - unfold calculate_performance_metrics.
    cbv beta iota zeta delta [total_trades winning_trades losing_trades breakeven_trades win_rate].
    rewrite <- HL. pose proof (count_results_le l) as Hc.
    unfold count_result. repeat split; try lia.
    + apply round_digits2_percent.
      destruct (Z.ltb_spec 0 (Z.of_nat (List.length l))) as [Ht|Ht];
        [|split; discriminate].
      apply win_fraction_bounds; lia.
    + apply round_digits2_percent.
      destruct (Z.ltb_spec 0 (Z.of_nat (List.length l))) as [Ht|Ht];
        [|split; discriminate].
      apply win_fraction_bounds; lia.
Qed.

Lemma sumQ_cons x l : sumQ (x :: l) = x + sumQ l.
Proof. reflexivity. Qed.

Lemma sumQ_app l1 l2 : sumQ (l1 ++ l2) == sumQ l1 + sumQ l2.
Proof.
  induction l1 as [|x l1 IH]; simpl app; rewrite ?sumQ_cons; [simpl; ring|].
  rewrite IH. ring.
Qed.

Lemma sumQ_nonneg l : (forall x, In x l -> 0 <= x) -> 0 <= sumQ l.
Proof.
  induction l as [|x l IH]; intro H; [apply Qle_refl|].
  rewrite sumQ_cons. assert (0 <= x) by (apply H; now left).
  assert (0 <= sumQ l) by (apply IH; intros y Hy; apply H; now right). lra.
Qed.

Lemma sumQ_nonpos l : (forall x, In x l -> x <= 0) -> sumQ l <= 0.
Proof.
  induction l as [|x l IH]; intro H; [apply Qle_refl|].
  rewrite sumQ_cons. assert (x <= 0) by (apply H; now left).
  assert (sumQ l <= 0) by (apply IH; intros y Hy; apply H; now right). lra.
Qed.

Lemma sumQ_perm l l' : Permutation l l' -> sumQ l == sumQ l'.
Proof.
  induction 1; rewrite ?sumQ_cons.
  - reflexivity.
  - rewrite IHPermutation. reflexivity.
  - ring.
  - rewrite IHPermutation1. exact IHPermutation2.
Qed.

Lemma profits_pos l x : In x (profits_of l) -> 0 < x.
Proof.
  intro Hx. unfold profits_of in Hx. apply in_flat_map in Hx as (s & _ & Hs).
  destruct (final_pnl s) as [p|]; [|destruct Hs].
  destruct (Qltb 0 p) eqn:E; [|destruct Hs]. destruct Hs as [<-|[]]. now qhyps.
Qed.

Lemma losses_neg l x : In x (losses_of l) -> x < 0.
Proof.
  intro Hx. unfold losses_of in Hx. apply in_flat_map in Hx as (s & _ & Hs).
  destruct (final_pnl s) as [p|]; [|destruct Hs].
  destruct (Qltb p 0) eqn:E; [|destruct Hs]. destruct Hs as [<-|[]]. now qhyps.
Qed.

Lemma length_pos_Q {A} (x : A) l : 0 < inject_Z (Z.of_nat (List.length (x :: l))).
Proof. change 0 with (inject_Z 0). rewrite <- Zlt_Qlt. simpl. lia. Qed.

Lemma mean_or_zero_nonneg l : (forall x, In x l -> 0 <= x) -> 0 <= mean_or_zero l.
Proof.
  intro H. destruct l as [|x t]; [apply Qle_refl|]. unfold mean_or_zero, meanQ.
  apply Qle_shift_div_l; [apply length_pos_Q|]. rewrite Qmult_0_l.
  apply sumQ_nonneg, H.
Qed.

Lemma mean_or_zero_nonpos l : (forall x, In x l -> x <= 0) -> mean_or_zero l <= 0.
Proof.
  intro H. destruct l as [|x t]; [apply Qle_refl|]. unfold mean_or_zero, meanQ.
  apply Qle_shift_div_r; [apply length_pos_Q|]. rewrite Qmult_0_l.
  apply sumQ_nonpos, H.
Qed.

(** [calculate_performance_metrics]: [total_profit], [total_loss] and
    [average_profit] are non-negative, [average_loss] is non-positive, and a
    finite [profit_factor] is non-negative. *)
Theorem metrics_signs l :
  let m := calculate_performance_metrics l in
  0 <= total_profit m /\ 0 <= total_loss m /\
  0 <= average_profit m /\ average_loss m <= 0 /\
  (forall q, profit_factor m = Fin q -> 0 <= q).
Proof.
  destruct l as [|a l'] eqn:HL.
  - cbn. repeat split; try apply Qle_refl. intros q Hq. inversion Hq. apply Qle_refl.
  - unfold calculate_performance_metrics.
    cbv beta iota zeta delta [total_profit total_loss average_profit average_loss profit_factor].
    rewrite <- HL.
    assert (Htp : 0 <= match profits_of l with [] => 0 | _ => sumQ (profits_of l) end).
    { destruct (profits_of l) eqn:Ep; [apply Qle_refl|]. rewrite <- Ep.
      apply sumQ_nonneg. intros x Hx. apply Qlt_le_weak. eapply profits_pos; eassumption. }
    assert (Htl : 0 <= match losses_of l with [] => 0 | _ => Qabs (sumQ (losses_of l)) end).
    { destruct (losses_of l); [apply Qle_refl | apply Qabs_nonneg]. }
    repeat split.
    + now apply round_digits_nonneg.
    + now apply round_digits_nonneg.
    + apply round_digits_nonneg, mean_or_zero_nonneg.
      intros x Hx. apply Qlt_le_weak. eapply profits_pos; eassumption.
    + apply round_digits_nonpos, mean_or_zero_nonpos.
      intros x Hx. apply Qlt_le_weak. eapply losses_neg; eassumption.
    + intros q Hq. revert Hq.
      destruct (Qltb 0 _) eqn:E; intro Hq; inversion Hq as [Hq']; clear Hq.
      qhyps. apply round_digits_nonneg. apply Qle_shift_div_l; [exact E|].
      rewrite Qmult_0_l. exact Htp.
Qed.

(** [sorted] is a permutation. *)
Lemma insert_by_entry_perm s l : Permutation (insert_by_entry s l) (s :: l).
Proof.
  induction l as [|t l IH]; simpl; [reflexivity|].
  destruct (Z.leb _ _); [reflexivity|].
  eapply perm_trans; [apply perm_skip, IH | apply perm_swap].
Qed.

Lemma sort_by_entry_perm l : Permutation (sort_by_entry l) l.
Proof.
  induction l as [|s l IH]; simpl; [reflexivity|].
  eapply perm_trans; [apply insert_by_entry_perm | apply perm_skip, IH].
Qed.


Lemma cumulate_last c l :
  l <> [] -> last (cumulate c l) 0 == c + sumQ (map pnl_of l).
Proof.
  revert c. induction l as [|s l IH]; intros c Hne; [congruence|].
  destruct l as [|s2 l2].
  - simpl. unfold pnl_of. ring.
  - change (last (cumulate c (s :: s2 :: l2)) 0)
      with (last (cumulate (c + or_zero (final_pnl s)) (s2 :: l2)) 0).
    rewrite IH by discriminate.
    change (map pnl_of (s :: s2 :: l2)) with (pnl_of s :: map pnl_of (s2 :: l2)).
    rewrite (sumQ_cons (pnl_of s)). unfold pnl_of. ring.
Qed.

Lemma profits_losses_sum l :
  sumQ (profits_of l) + sumQ (losses_of l) == sumQ (map pnl_of l).
Proof.
  induction l as [|s l IH]; [reflexivity|].
  unfold profits_of, losses_of in *. simpl flat_map. rewrite !sumQ_app.
  rewrite map_cons, sumQ_cons. rewrite <- IH. unfold pnl_of.
  destruct (final_pnl s) as [p|]; simpl.
  - destruct (Qltb 0 p) eqn:E1, (Qltb p 0) eqn:E2; qhyps; simpl; try lra.
  - lra.
Qed.

(** For a non-empty list, the last value of [_calculate_cumulative_pnl] is
    the sum of the [final_pnl or 0] values whatever the entry dates, and
    [net_pnl] is that value rounded to two places. *)
Theorem net_pnl_is_rounded_final_cumulative l :
  l <> [] ->
  last (_calculate_cumulative_pnl l) 0 == sumQ (map pnl_of l) /\
  net_pnl (calculate_performance_metrics l) = round_digits 2 (last (_calculate_cumulative_pnl l) 0).
Proof.
  intro Hne.
  assert (Hlast : last (_calculate_cumulative_pnl l) 0 == sumQ (map pnl_of l)).
  { destruct l as [|a l']; [congruence|]. unfold _calculate_cumulative_pnl.
    rewrite cumulate_last.
    - rewrite Qplus_0_l. apply sumQ_perm, Permutation_map, sort_by_entry_perm.
    - intro H. pose proof (sort_by_entry_perm (a :: l')) as P. rewrite H in P.
      apply Permutation_nil in P. discriminate. }
  split; [exact Hlast|].
  destruct l as [|a l'] eqn:HL; [congruence|].
  unfold calculate_performance_metrics. cbv beta iota zeta delta [net_pnl].
  rewrite <- HL. try rewrite <- HL in Hlast. apply round_digits_comp. rewrite Hlast, <- profits_losses_sum.
  assert (Hp : match profits_of l with [] => 0 | _ => sumQ (profits_of l) end
               = sumQ (profits_of l)) by (destruct (profits_of l); reflexivity).
  rewrite Hp.
  destruct (losses_of l) as [|x t] eqn:El.
  - simpl. ring.
  - rewrite Qabs_neg.
    + ring.
    + apply sumQ_nonpos. intros y Hy. apply Qlt_le_weak. eapply losses_neg.
      rewrite El. exact Hy.
Qed.

Lemma net_pnl_is_rounded_final_cumulative_witness :
  map entry_date (sort_by_entry [loss_record; gain_record]) = [0%Z; 1%Z] /\
  sumQ (map pnl_of [loss_record; gain_record]) == 5 /\
  [loss_record; gain_record] <> [] /\
  last (_calculate_cumulative_pnl [loss_record; gain_record]) 0
    == sumQ (map pnl_of [loss_record; gain_record]) /\
  net_pnl (calculate_performance_metrics [loss_record; gain_record])
    = round_digits 2 (last (_calculate_cumulative_pnl [loss_record; gain_record]) 0).
Proof.
  split; [vm_compute; reflexivity|].
  split; [vm_compute; reflexivity|].
  split; [discriminate|].
  apply (net_pnl_is_rounded_final_cumulative [loss_record; gain_record]).
  discriminate.
Defined.

Lemma LocallySorted_tail (l : list Q) a :
  LocallySorted Qle (a :: l) -> LocallySorted Qle l.
Proof. intro H. inversion H; [constructor | assumption]. Qed.

Lemma drawdown_loop_sorted peak values :
  LocallySorted Qle (peak :: values) -> drawdown_loop peak 0 values = 0.
Proof.
  revert peak. induction values as [|v rest IH]; intros peak Hs; [reflexivity|].
  inversion Hs as [| |? ? ? Hs' Hpv]; subst.
  simpl. set (p' := if Qltb peak v then v else peak).
  assert (Hp' : p' == v) by (subst p'; destruct (Qltb peak v) eqn:E; qhyps; lra).
  assert (Hd : Qltb 0 (if Qltb 0 p' then (p' - v) / p' * 100 else 0) = false).
  { apply Qltb_false. destruct (Qltb 0 p'); [|apply Qle_refl].
    setoid_replace (p' - v) with 0 by lra. unfold Qdiv. rewrite !Qmult_0_l. apply Qle_refl. }
  rewrite Hd. apply IH.
  destruct rest as [|w rest']; [constructor|].
  inversion Hs' as [| |? ? ? Hs'' Hvw]; subst.
  constructor; [exact Hs'' | lra].
Qed.

Lemma cumulate_sorted c l :
  (forall s, In s l -> 0 <= pnl_of s) -> LocallySorted Qle (c :: cumulate c l).
Proof.
  revert c. induction l as [|s l IH]; intros c H; [constructor|].
  simpl. constructor.
  - apply IH. intros t Ht. apply H. now right.
  - assert (0 <= pnl_of s) by (apply H; now left). unfold pnl_of in *. lra.
Qed.

(** When no record has a negative [final_pnl or 0], the cumulative P&L never
    decreases and [max_drawdown] is 0. *)
Theorem no_losing_trade_no_drawdown l :
  (forall s, In s l -> 0 <= pnl_of s) ->
  LocallySorted Qle (_calculate_cumulative_pnl l) /\
  max_drawdown (calculate_performance_metrics l) == 0.
Proof.
  intro Hall.
  assert (Hsorted : LocallySorted Qle (_calculate_cumulative_pnl l)).
  { destruct l as [|a l'] eqn:HL; [constructor|].
    unfold _calculate_cumulative_pnl. rewrite <- HL. rewrite <- HL in Hall.
    apply (LocallySorted_tail _ 0). apply cumulate_sorted. intros s Hs. apply Hall.
    eapply Permutation_in; [apply sort_by_entry_perm | exact Hs]. }
  split; [exact Hsorted|].
  destruct l as [|a l'] eqn:HL; [reflexivity|].
  unfold calculate_performance_metrics. cbv beta iota zeta delta [max_drawdown].
  rewrite <- HL. rewrite <- HL in Hall, Hsorted.
  assert (Hdd : _calculate_max_drawdown (_calculate_cumulative_pnl l) = 0).
  { destruct (_calculate_cumulative_pnl l) as [|first rest] eqn:Ec; [reflexivity|].
    unfold _calculate_max_drawdown. apply drawdown_loop_sorted.
    constructor; [exact Hsorted | apply Qle_refl]. }
  rewrite Hdd. reflexivity.
Qed.

Lemma no_losing_trade_no_drawdown_witness :
  _calculate_cumulative_pnl [small_gain_record; gain_record] = [10; 15] /\
  (forall s, In s [small_gain_record; gain_record] -> 0 <= pnl_of s) /\
  LocallySorted Qle (_calculate_cumulative_pnl [small_gain_record; gain_record]) /\
  max_drawdown (calculate_performance_metrics [small_gain_record; gain_record]) == 0.
Proof.
  assert (H : forall s, In s [small_gain_record; gain_record] -> 0 <= pnl_of s)
    by (intros s [<-|[<-|[]]]; discriminate).
  split; [vm_compute; reflexivity|].
  split; [exact H|].
  apply (no_losing_trade_no_drawdown [small_gain_record; gain_record]). exact H.
Defined.

Lemma filter_perm {A} (f : A -> bool) l l' :
  Permutation l l' -> Permutation (filter f l) (filter f l').
Proof.
  induction 1; simpl.
  - constructor.
  - destruct (f x); [apply perm_skip|]; assumption.
  - destruct (f x), (f y); try constructor; reflexivity.
  - eapply perm_trans; eassumption.
Qed.

Lemma consecutive_loop_upper cur mx l :
  (consecutive_loop cur mx l <= Nat.max mx (cur + List.length (filter is_loss l)))%nat.
Proof.
  revert cur mx. induction l as [|s l IH]; intros cur mx; simpl; [lia|].
  destruct (is_loss s); simpl.
  - specialize (IH (S cur) (Nat.max mx (S cur))). lia.
  - specialize (IH 0%nat mx). lia.
Qed.

Lemma consecutive_loop_ge cur mx l : (mx <= consecutive_loop cur mx l)%nat.
Proof.
  revert cur mx. induction l as [|s l IH]; intros cur mx; simpl; [lia|].
  destruct (is_loss s).
  - specialize (IH (S cur) (Nat.max mx (S cur))). lia.
  - apply IH.
Qed.

Lemma consecutive_loop_some_loss cur mx l :
  (exists s, In s l /\ is_loss s = true) -> (1 <= consecutive_loop cur mx l)%nat.
Proof.
  revert cur mx. induction l as [|s l IH]; intros cur mx [t [Ht Hl]]; [destruct Ht|].
  simpl. destruct (is_loss s) eqn:E.
  - pose proof (consecutive_loop_ge (S cur) (Nat.max mx (S cur)) l). lia.
  - destruct Ht as [<-|Ht]; [congruence|]. apply IH. now exists t.
Qed.

Lemma consecutive_loop_no_loss cur mx l :
  (forall s, In s l -> is_loss s = false) -> consecutive_loop cur mx l = mx.
Proof.
  revert cur. induction l as [|s l IH]; intros cur H; [reflexivity|].
  simpl. rewrite (H s (or_introl eq_refl)). apply IH. intros t Ht. apply H. now right.
Qed.

(** [_calculate_max_consecutive_losses] is at most the number of [LOSS]
    records, and is positive exactly when there is one. *)
Theorem max_consecutive_losses_bounds l :
  (_calculate_max_consecutive_losses l <= List.length (filter is_loss l))%nat /\
  ((0 < _calculate_max_consecutive_losses l)%nat <-> exists s, In s l /\ is_loss s = true).
Proof.
  destruct l as [|a l'] eqn:HL.
  - simpl. split; [lia|]. split; [lia|]. intros [s [[] _]].
  - unfold _calculate_max_consecutive_losses. rewrite <- HL.
    split.
    + pose proof (consecutive_loop_upper 0 0 (sort_by_entry l)) as H.
      rewrite (Permutation_length (filter_perm is_loss _ _ (sort_by_entry_perm l))) in H.
      lia.
    + split.
      * intro Hpos. destruct (existsb is_loss l) eqn:E.
        -- apply existsb_exists in E. exact E.
        -- exfalso. rewrite consecutive_loop_no_loss in Hpos; [lia|].
           intros s Hs. apply (Permutation_in _ (sort_by_entry_perm l)) in Hs.
           destruct (is_loss s) eqn:Es; [|reflexivity].
           assert (existsb is_loss l = true) by (apply existsb_exists; now exists s).
           congruence.
      * intros [s [Hs Hl]]. apply consecutive_loop_some_loss. exists s. split; [|exact Hl].
        eapply Permutation_in; [apply Permutation_sym, sort_by_entry_perm | exact Hs].
Qed.



Lemma count_strategy_ok s e :
  (b_wins e + b_losses e + b_breakeven e = b_total e /\
   0 <= b_wins e /\ 0 <= b_losses e /\ 0 <= b_breakeven e)%Z ->
  entry_ok (count_strategy s e).
Proof.
  intros (H1 & H2 & H3 & H4). unfold entry_ok, count_strategy.
  destruct (result s) as [[| |]|]; simpl; lia.
Qed.

Lemma count_strategy_total s e : b_total (count_strategy s e) = (b_total e + 1)%Z.
Proof. unfold count_strategy. destruct (result s) as [[| |]|]; reflexivity. Qed.

Lemma breakdown_add_keys key s d k :
  In k (map fst (breakdown_add key s d)) <-> k = key \/ In k (map fst d).
Proof.
  induction d as [|[k' e] d IH]; simpl.
  - split; intros [H|[]]; left; symmetry; exact H.
  - destruct (String.eqb_spec k' key) as [->|Hne]; simpl.
    + split.
      * intros [H|H]; [left; symmetry; exact H | right; right; exact H].
      * intros [H|[H|H]]; [left; symmetry; exact H | left; exact H | right; exact H].
    + rewrite IH. tauto.
Qed.

Lemma breakdown_add_nodup key s d :
  NoDup (map fst d) -> NoDup (map fst (breakdown_add key s d)).
Proof.
  induction d as [|[k' e] d IH]; simpl; intro H; [constructor; [intros []|constructor]|].
  inversion H as [|? ? Hnin Hnd]; subst.
  destruct (String.eqb_spec k' key) as [->|Hne]; simpl; [exact H|].
  constructor; [|now apply IH].
  rewrite breakdown_add_keys. intros [Heq|Hin]; [congruence | contradiction].
Qed.

Lemma breakdown_add_ok key s d :
  (forall k e, In (k, e) d -> entry_ok e) ->
  forall k e, In (k, e) (breakdown_add key s d) -> entry_ok e.
Proof.
  induction d as [|[k' e'] d IH]; simpl; intros H k e Hin.
  - destruct Hin as [Heq|[]]. inversion Heq; subst.
    apply count_strategy_ok. unfold empty_entry; simpl; lia.
  - destruct (String.eqb k' key).
    + destruct Hin as [Heq|Hin]; [|eapply H; right; eassumption].
      inversion Heq; subst. apply count_strategy_ok.
      destruct (H k e' (or_introl eq_refl)) as (H1 & _ & H3 & H4 & H5). lia.
    + destruct Hin as [Heq|Hin]; [inversion Heq; subst; eapply H; now left|].
      eapply IH; [|eassumption]. intros k2 e2 Hk2. eapply H. right. eassumption.
Qed.

Lemma breakdown_add_total key s d :
  total_count (breakdown_add key s d) = (total_count d + 1)%Z.
Proof.
  unfold total_count. induction d as [|[k' e] d IH]; simpl.
  - rewrite count_strategy_total. reflexivity.
  - destruct (String.eqb k' key); simpl; [rewrite count_strategy_total|rewrite IH]; lia.
Qed.


Lemma fold_breakdown l d :
  (NoDup (map fst d) -> NoDup (map fst (fold_left (fun d s => breakdown_add (strategy_name s) s d) l d))) /\
  (forall k, In k (map fst (fold_left (fun d s => breakdown_add (strategy_name s) s d) l d))
             <-> In k (map fst d) \/ exists s, In s l /\ strategy_name s = k) /\
  ((forall k e, In (k, e) d -> entry_ok e) ->
   forall k e, In (k, e) (fold_left (fun d s => breakdown_add (strategy_name s) s d) l d) ->
   entry_ok e) /\
  total_count (fold_left (fun d s => breakdown_add (strategy_name s) s d) l d)
    = (total_count d + Z.of_nat (List.length l))%Z.
Proof.
  revert d. induction l as [|s l IH]; intro d; simpl.
  - split; [tauto|]. split; [intro k; split; [tauto|intros [H|[s [[] _]]]; exact H]|].
    split; [tauto | lia].
  - destruct (IH (breakdown_add (strategy_name s) s d)) as (H1 & H2 & H3 & H4).
    split; [intro Hnd; apply H1, breakdown_add_nodup, Hnd|].
    split.
    + intro k. rewrite H2, breakdown_add_keys. split.
      * intros [[->|Hin]|[t [Ht Hk]]].
        -- right. exists s. split; [now left | reflexivity].
        -- now left.
        -- right. exists t. split; [now right | exact Hk].
      * intros [Hin|[t [[<-|Ht] Hk]]].
        -- left. now right.
        -- left. now left.
        -- right. exists t. split; assumption.
    + split.
      * intros Hok. apply H3. apply breakdown_add_ok. exact Hok.
      * rewrite H4, breakdown_add_total. lia.
Qed.

Lemma analyze_breakdown_unfold l :
  _analyze_strategy_breakdown l = map (fun kv => (fst kv, finish_entry (snd kv))) (breakdown_raw l).
Proof. reflexivity. Qed.

(** [_analyze_strategy_breakdown] has one entry per distinct
    [strategy_name] occurring in the list, and no other. *)
Theorem breakdown_keys l :
  NoDup (map fst (_analyze_strategy_breakdown l)) /\
  (forall k, In k (map fst (_analyze_strategy_breakdown l)) <->
             exists s, In s l /\ strategy_name s = k).
Proof.
  rewrite analyze_breakdown_unfold, map_map. simpl.
  rewrite map_ext with (g := fst) by reflexivity.
  destruct (fold_breakdown l []) as (H1 & H2 & _).
  split; [apply H1; constructor|].
  intro k. unfold breakdown_raw. rewrite H2. simpl. tauto.
Qed.

(** In each entry of [_analyze_strategy_breakdown], wins, losses and
    breakeven add up to the entry's positive [total], and [win_rate] lies in
    [[0, 100]]; the totals add up to the number of records. *)
Theorem breakdown_counts l :
  (forall k e, In (k, e) (_analyze_strategy_breakdown l) ->
     (b_wins e + b_losses e + b_breakeven e = b_total e)%Z /\ (0 < b_total e)%Z /\
     0 <= b_win_rate e <= 100) /\
  total_count (_analyze_strategy_breakdown l) = Z.of_nat (List.length l).
Proof.
  destruct (fold_breakdown l []) as (_ & _ & H3 & H4).
  rewrite analyze_breakdown_unfold. split.
  - intros k e Hin. apply in_map_iff in Hin as [[k0 e0] [Heq Hin]].
    simpl in Heq. inversion Heq; subst.
    assert (Hok : entry_ok e0) by (eapply H3; [intros ? ? []|exact Hin]).
    destruct Hok as (Hsum & Hpos & Hw & Hlo & Hb).
    unfold finish_entry; simpl. split; [exact Hsum|]. split; [exact Hpos|].
    destruct (Z.ltb_spec 0 (b_total e0)); [|lia].
    apply round_digits2_percent, win_fraction_bounds; lia.
  - unfold total_count in *. rewrite map_map. simpl.
    unfold breakdown_raw. rewrite H4. reflexivity.
Qed.

Lemma Forall2_map_same {A} (f g : A -> Q) (R : Q -> Q -> Prop) l :
  (forall x, R (f x) (g x)) -> Forall2 R (map f l) (map g l).
Proof. intro H. induction l; simpl; constructor; auto. Qed.

Lemma maximum0_sub a b : maximum0 (a - b) - maximum0 (b - a) == a - b.
Proof. unfold maximum0. qcases; lra. Qed.

Lemma maximum0_nonneg x : 0 <= maximum0 x.
Proof. unfold maximum0. qcases; lra. Qed.

(** With the same strikes and premiums, the call (put) credit spread's
    payoff is the negation of the call (put) debit spread's payoff at every
    spot price. *)
Theorem credit_spreads_mirror_debit underlying lower upper lower_prem upper_prem
    expiration_ spots :
  (exists cs ds,
     CallCreditSpread_calculate_payoff
       (CallCreditSpread_add_legs (CallCreditSpread underlying)
          lower upper lower_prem upper_prem expiration_) spots = Ok cs /\
     CallDebitSpread_calculate_payoff
       (CallDebitSpread_add_legs (CallDebitSpread underlying)
          lower upper lower_prem upper_prem expiration_) spots = Ok ds /\
     Forall2 (fun c d => c == - d) cs ds) /\
  (exists cs ds,
     PutCreditSpread_calculate_payoff
       (PutCreditSpread_add_legs (PutCreditSpread underlying)
          upper lower upper_prem lower_prem expiration_) spots = Ok cs /\
     PutDebitSpread_calculate_payoff
       (PutDebitSpread_add_legs (PutDebitSpread underlying)
          upper lower upper_prem lower_prem expiration_) spots = Ok ds /\
     Forall2 (fun c d => c == - d) cs ds).
Proof.
  split; do 2 eexists; split; [reflexivity| |reflexivity|];
    split; [reflexivity| |reflexivity|]; apply Forall2_map_same; intro p; simpl; ring.
Qed.

(** A call debit spread plus a put debit spread on the same strikes pay a
    constant amount at every spot price: the strike width minus both net
    debits. *)
Theorem call_put_debit_box underlying lower upper call_lower_prem call_upper_prem
    put_upper_prem put_lower_prem expiration_ spots :
  exists cs ps,
    CallDebitSpread_calculate_payoff
      (CallDebitSpread_add_legs (CallDebitSpread underlying)
         lower upper call_lower_prem call_upper_prem expiration_) spots = Ok cs /\
    PutDebitSpread_calculate_payoff
      (PutDebitSpread_add_legs (PutDebitSpread underlying)
         upper lower put_upper_prem put_lower_prem expiration_) spots = Ok ps /\
    Forall2 (fun c p => c + p == (upper - lower) - (call_lower_prem - call_upper_prem)
                                 - (put_upper_prem - put_lower_prem)) cs ps.
Proof.
  do 2 eexists. split; [reflexivity|]. split; [reflexivity|].
  apply Forall2_map_same. intro p. simpl.
  pose proof (maximum0_sub p lower). pose proof (maximum0_sub upper p). lra.
Qed.

Lemma fold_max_in (l : list Q) acc :
  In (fold_left (fun m y => if Qltb m y then y else m) l acc) (acc :: l).
Proof.
  revert acc. induction l as [|y l IH]; intro acc; simpl; [now left|].
  destruct (IH (if Qltb acc y then y else acc)) as [H|H].
  - destruct (Qltb acc y); rewrite <- H; [right; now left | now left].
  - right; now right.
Qed.

Lemma fold_min_in (l : list Q) acc :
  In (fold_left (fun m y => if Qltb y m then y else m) l acc) (acc :: l).
Proof.
  revert acc. induction l as [|y l IH]; intro acc; simpl; [now left|].
  destruct (IH (if Qltb y acc then y else acc)) as [H|H].
  - destruct (Qltb y acc); rewrite <- H; [right; now left | now left].
  - right; now right.
Qed.

Lemma np_max_in l m : np_max l = Ok m -> In m l.
Proof.
  destruct l as [|x l]; simpl; intro H; [discriminate|].
  inversion H. apply fold_max_in.
Qed.

Lemma np_min_in l m : np_min l = Ok m -> In m l.
Proof.
  destruct l as [|x l]; simpl; intro H; [discriminate|].
  inversion H. apply fold_min_in.
Qed.

Lemma analyze_ok f s r :
  analyze f s = Ok r ->
  exists payoffs,
    f s (linspace (underlying_price s * (7 # 10)) (underlying_price s * (13 # 10)) 100)
      = Ok payoffs /\
    In (a_max_profit r) payoffs /\ In (a_max_loss r) payoffs /\
    profit_probability r = calc_profit_prob payoffs.
Proof.
  unfold analyze.
  set (sp := linspace (underlying_price s * (7 # 10)) (underlying_price s * (13 # 10)) 100).
  clearbody sp.
  destruct (f s sp) as [payoffs|e]; simpl; [|discriminate].
  destruct (np_max payoffs) as [mx|e] eqn:Emx; simpl; [|discriminate].
  destruct (np_min payoffs) as [mn|e] eqn:Emn; simpl; [|discriminate].
  intro H. inversion H; subst; clear H. exists payoffs. simpl.
  split; [reflexivity|]. split; [now apply np_max_in|]. split; [now apply np_min_in|].
  reflexivity.
Qed.

(** For [lower <= upper], [analyze] reports for a call or put debit spread
    a [max_loss] no lower than minus the net debit and a [max_profit] no
    higher than the width minus the net debit. *)
Theorem debit_spread_extremes_within_width underlying lower upper lower_prem upper_prem
    expiration_ :
  lower <= upper ->
  (forall r, evaluate_call_debit_spread underlying lower upper lower_prem upper_prem
               expiration_ = Ok r ->
     - (lower_prem - upper_prem) <= a_max_loss r /\
     a_max_profit r <= (upper - lower) - (lower_prem - upper_prem)) /\
  (forall r, evaluate_put_debit_spread underlying lower upper lower_prem upper_prem
               expiration_ = Ok r ->
     - (upper_prem - lower_prem) <= a_max_loss r /\
     a_max_profit r <= (upper - lower) - (upper_prem - lower_prem)).
Proof.
  intro Hlu. split; intros r Hr; apply analyze_ok in Hr as (payoffs & Hp & Hmx & Hmn & _);
    match type of Hp with _ _ ?sp = _ => set (sp' := sp) in Hp; clearbody sp' end;
    simpl in Hp; inversion Hp as [Hp']; clear Hp; rewrite <- Hp' in Hmx, Hmn;
    apply in_map_iff in Hmx as (x & Hx & _); apply in_map_iff in Hmn as (y & Hy & _);
    rewrite <- Hx, <- Hy; unfold maximum0; split; qcases; lra.
Qed.

Lemma debit_spread_extremes_within_width_witness :
  145 <= 155 /\
  (forall r, evaluate_call_debit_spread 150 145 155 3 1 "2024-01-19" = Ok r ->
     - (3 - 1) <= a_max_loss r /\ a_max_profit r <= (155 - 145) - (3 - 1)) /\
  (forall r, evaluate_put_debit_spread 150 145 155 3 1 "2024-01-19" = Ok r ->
     - (1 - 3) <= a_max_loss r /\ a_max_profit r <= (155 - 145) - (1 - 3)).
Proof.
  split; [discriminate|].
  apply (debit_spread_extremes_within_width 150 145 155 3 1 "2024-01-19"). discriminate.
Defined.

(** A strategy freshly built by [StrategyFactory.create_strategy] has no legs:
    [analyze] on it raises [IndexError] for every strategy type. *)
Theorem analyze_unfilled_strategy_raises t underlying_price_ :
  analyze (calculate_payoff_of t) (create_strategy t underlying_price_) = Raised IndexError.
Proof. destruct t; reflexivity. Qed.

(** Whenever [analyze] returns, [profit_probability] lies in [[0, 1]]. *)
Theorem profit_probability_bounds f s r :
  analyze f s = Ok r -> 0 <= profit_probability r <= 1.
Proof.
  intro H. apply analyze_ok in H as (payoffs & _ & _ & _ & ->).
  unfold calc_profit_prob. destruct payoffs as [|x t]; [split; discriminate|].
  set (n := List.length (x :: t)). set (k := List.length (filter (Qltb 0) (x :: t))).
  assert (Hk : (k <= n)%nat) by apply filter_length_le.
  assert (Hn : 0 < inject_Z (Z.of_nat n)) by apply length_pos_Q.
  split.
  - apply Qle_shift_div_l; [exact Hn|]. rewrite Qmult_0_l.
    change 0 with (inject_Z 0). rewrite <- Zle_Qle. lia.
  - apply Qle_shift_div_r; [exact Hn|]. rewrite Qmult_1_l. rewrite <- Zle_Qle. lia.
Qed.

Lemma profit_probability_bounds_witness :
  match evaluate_call_debit_spread 150 145 155 3 1 "2024-01-19" with
  | Ok r => 0 <= profit_probability r <= 1
  | Raised _ => False
  end.
Proof.
  destruct (evaluate_call_debit_spread 150 145 155 3 1 "2024-01-19") eqn:E.
  - exact (profit_probability_bounds _ _ _ E).
  - vm_compute in E. discriminate.
Defined.

Lemma last_map_seq (f : nat -> Q) s n d :
  last (map f (seq s (S n))) d = f (s + n)%nat.
Proof.
  revert s. induction n as [|n IH]; intro s; [simpl; f_equal; lia|].
  change (last (map f (seq s (S (S n)))) d) with (last (map f (seq (S s) (S n))) d).
  rewrite IH. f_equal. lia.
Qed.

(** [np.linspace(start, stop, num)] with [num >= 2] has [num] points, the
    first equal to [start] and the last equal to [stop]. *)
Theorem linspace_endpoints start stop num :
  (2 <= num)%nat ->
  List.length (linspace start stop num) = num /\
  hd 0 (linspace start stop num) == start /\
  last (linspace start stop num) 0 == stop.
Proof.
  intro Hn. unfold linspace. rewrite length_map, length_seq. split; [reflexivity|].
  destruct num as [|m]; [lia|]. split.
  - simpl. ring.
  - rewrite last_map_seq. simpl plus.
    assert (Hk : ~ inject_Z (Z.of_nat (S m) - 1) == 0).
    { change 0 with (inject_Z 0). rewrite inject_Z_injective. lia. }
    replace (Z.of_nat m) with (Z.of_nat (S m) - 1)%Z by lia.
    rewrite Qmult_div_r by exact Hk. ring.
Qed.

Lemma linspace_endpoints_witness :
  (2 <= 100)%nat /\
  List.length (linspace 105 195 100) = 100%nat /\
  hd 0 (linspace 105 195 100) == 105 /\ last (linspace 105 195 100) 0 == 195.
Proof.
  split; [lia|]. apply (linspace_endpoints 105 195 100). lia.
Defined.


Lemma process_loop_keeps price update now st0 l todo :
  forall st acc,
  ids_distinct st0 ->
  (forall x, In x todo -> In x (active_strategies st0)) ->
  (forall x, In x (active_strategies st) -> In x (active_strategies st0)) ->
  (forall x, id (heap st x) = id (heap st0 x)) ->
  In l (active_strategies st) -> heap st l = heap st0 l ->
  (In l todo -> price (symbol (heap st0 l)) = None) ->
  In l (active_strategies (fst (process_loop price update now todo st acc))) /\
  heap (fst (process_loop price update now todo st acc)) l = heap st0 l.
Proof.
  induction todo as [|x rest IH]; intros st acc Hinj Htodo Hsub Hid Hl Hh Hp; simpl.
  - split; assumption.
  - destruct (price (symbol (heap st x))) as [p|] eqn:Ep.
    2:{ apply IH; auto; [intros x' Hx'; apply Htodo; now right | intro Hin; apply Hp; now right]. }
    assert (Hxl : x <> l).
    { intros ->. rewrite Hh, Hp in Ep; [discriminate | now left]. }
    assert (Hx0 : In x (active_strategies st0)) by (apply Htodo; now left).
    destruct (calculate_strategy_result (heap st x) p) as [[pnl r] reason].
    set (st1 := write st x (complete (heap st x) p now pnl r reason)).
    assert (Hid1 : forall y, id (heap st1 y) = id (heap st0 y)).
    { intro y. subst st1. simpl. destruct (Nat.eqb_spec y x) as [->|]; simpl; apply Hid. }
    assert (Hh1 : heap st1 l = heap st0 l).
    { subst st1. simpl. destruct (Nat.eqb_spec l x); [congruence | exact Hh]. }
    destruct (update _ _ _ _ _ _).
    + apply IH; auto.
      * intros x' Hx'. apply Htodo. now right.
      * intros y Hy. simpl in Hy. apply filter_In in Hy as [Hy _]. now apply Hsub.
      * simpl. apply filter_In. split; [exact Hl|].
        destruct (Nat.eqb_spec l x) as [|_]; [congruence|]. rewrite (Hid l), (Hid x). destruct (String.eqb_spec (id (heap st0 l)) (id (heap st0 x)))
          as [E|]; [|reflexivity].
        exfalso. apply Hxl. symmetry. apply Hinj; auto.
      * intro Hin. apply Hp. now right.
    + apply IH; auto; [intros x' Hx'; apply Htodo; now right | intro Hin; apply Hp; now right].
Qed.

(** [process_expired_strategies], with distinct ids among the active
    records: a record that has not expired, or whose price lookup fails,
    stays active and is not modified. *)
Theorem process_expired_keeps_unsettled price update now st l :
  ids_distinct st ->
  In l (active_strategies st) ->
  ((now < expiration_date (heap st l))%Z \/ price (symbol (heap st l)) = None) ->
  In l (active_strategies (fst (process_expired_strategies price update now st))) /\
  heap (fst (process_expired_strategies price update now st)) l = heap st l.
Proof.
  intros Hinj Hl Hcase. unfold process_expired_strategies.
  apply process_loop_keeps; auto.
  - intros x Hx. unfold get_expired_strategies in Hx. now apply filter_In in Hx as [Hx _].
  - intro Hin. destruct Hcase as [Hlt|Hnone]; [|exact Hnone].
    unfold get_expired_strategies in Hin. apply filter_In in Hin as [_ Hle].
    apply Z.leb_le in Hle. lia.
Qed.

Lemma process_expired_keeps_unsettled_witness :
  ids_distinct two_record_tracker /\ In 1%nat (active_strategies two_record_tracker) /\
  In 1%nat (active_strategies (fst (process_expired_strategies price_160 store_ok 200 two_record_tracker))) /\
  heap (fst (process_expired_strategies price_160 store_ok 200 two_record_tracker)) 1%nat
    = heap two_record_tracker 1%nat.
Proof.
  assert (Hd : ids_distinct two_record_tracker)
    by (intros l1 l2 [<-|[<-|[]]] [<-|[<-|[]]]; simpl; congruence).
  split; [exact Hd|]. split; [right; left; reflexivity|].
  apply (process_expired_keeps_unsettled price_160 store_ok 200 two_record_tracker 1%nat Hd).
  - right; left; reflexivity.
  - left. reflexivity.
Defined.

Lemma process_loop_returned_completed price update now todo :
  forall st acc,
  (forall l, In l acc -> ~ In l (active_strategies st) /\
     status (heap st l) = COMPLETED /\ exit_date (heap st l) = Some now) ->
  forall l, In l (snd (process_loop price update now todo st acc)) ->
  ~ In l (active_strategies (fst (process_loop price update now todo st acc))) /\
  status (heap (fst (process_loop price update now todo st acc)) l) = COMPLETED /\
  exit_date (heap (fst (process_loop price update now todo st acc)) l) = Some now.
Proof.
  induction todo as [|x rest IH]; intros st acc Hacc; simpl; [exact Hacc|].
  destruct (price (symbol (heap st x))) as [p|]; [|apply IH, Hacc].
  destruct (calculate_strategy_result (heap st x) p) as [[pnl r] reason].
  set (c := complete (heap st x) p now pnl r reason).
  assert (Hw : forall l, In l acc ->
            status (heap (write st x c) l) = COMPLETED /\
            exit_date (heap (write st x c) l) = Some now).
  { intros l Hl. simpl. destruct (Nat.eqb_spec l x); [split; reflexivity|].
    apply Hacc in Hl as (_ & H1 & H2). split; assumption. }
  destruct (update _ _ _ _ _ _); apply IH.
  - intros l Hl. apply in_app_or in Hl as [Hl|[<-|[]]].
    + destruct (Hw l Hl) as [H1 H2]. split; [|split; assumption].
      intro Hin. simpl in Hin. apply filter_In in Hin as [Hin _].
      apply (proj1 (Hacc l Hl)). exact Hin.
    + simpl. rewrite Nat.eqb_refl. split; [|split; reflexivity].
      intro Hin. apply filter_In in Hin as [_ Hin]. rewrite Nat.eqb_refl in Hin.
      simpl in Hin. rewrite String.eqb_refl in Hin. discriminate.
  - intros l Hl. destruct (Hw l Hl) as [H1 H2]. split; [|split; assumption].
    exact (proj1 (Hacc l Hl)).
Qed.

(** Every record returned by [process_expired_strategies] is no longer
    active, has status [COMPLETED] and exit date [now]. *)
Theorem process_expired_returned_completed price update now st l :
  In l (snd (process_expired_strategies price update now st)) ->
  ~ In l (active_strategies (fst (process_expired_strategies price update now st))) /\
  status (heap (fst (process_expired_strategies price update now st)) l) = COMPLETED /\
  exit_date (heap (fst (process_expired_strategies price update now st)) l) = Some now.
Proof.
  unfold process_expired_strategies. apply process_loop_returned_completed.
  intros l' [].
Qed.

Lemma process_expired_returned_completed_witness :
  In 0%nat (snd (process_expired_strategies price_160 store_ok 200 one_expired_tracker)) /\
  ~ In 0%nat (active_strategies (fst (process_expired_strategies price_160 store_ok 200 one_expired_tracker))) /\
  status (heap (fst (process_expired_strategies price_160 store_ok 200 one_expired_tracker)) 0%nat) = COMPLETED /\
  exit_date (heap (fst (process_expired_strategies price_160 store_ok 200 one_expired_tracker)) 0%nat) = Some 200%Z.
Proof.
  assert (H : In 0%nat (snd (process_expired_strategies price_160 store_ok 200 one_expired_tracker)))
    by (vm_compute; left; reflexivity).
  split; [exact H|].
  apply (process_expired_returned_completed price_160 store_ok 200 one_expired_tracker 0%nat H).
Defined.

Lemma filter_filter_and {A} (f g : A -> bool) l :
  filter f (filter g l) = filter (fun y => g y && f y) l.
Proof.
  induction l as [|y l IH]; simpl; [reflexivity|].
  destruct (g y); simpl; [destruct (f y); simpl|]; rewrite ?IH; reflexivity.
Qed.

Lemma process_loop_all_settled price update now todo :
  (forall s, price s <> None) ->
  (forall a b c d e f, update a b c d e f = true) ->
  forall st acc,
  NoDup todo ->
  (forall x, In x todo -> In x (active_strategies st)) ->
  ids_distinct st ->
  snd (process_loop price update now todo st acc) = (acc ++ todo)%list /\
  active_strategies (fst (process_loop price update now todo st acc))
    = filter (fun y => negb (existsb (Nat.eqb y) todo)) (active_strategies st).
Proof.
  intros Hprice Hupd. induction todo as [|x rest IH]; intros st acc Hnd Htodo Hinj; simpl.
  - rewrite app_nil_r. split; [reflexivity|]. symmetry. apply filter_true.
  - destruct (price (symbol (heap st x))) as [p|] eqn:Ep;
      [|exfalso; eapply Hprice; eassumption].
    destruct (calculate_strategy_result (heap st x) p) as [[pnl r] reason].
    rewrite Hupd.
    set (st2 := remove_strategy _ _).
    inversion Hnd as [|? ? Hxr Hnd']; subst.
    assert (Hx : In x (active_strategies st)) by (apply Htodo; now left).
    assert (Hact : active_strategies st2 =
                   filter (fun y => negb (Nat.eqb y x)) (active_strategies st)).
    { subst st2. simpl. apply filter_ext_in. intros y Hy.
      destruct (Nat.eqb_spec y x) as [->|Hne]; simpl.
      - rewrite String.eqb_refl. reflexivity.
      - destruct (String.eqb_spec (id (heap st y)) (id (heap st x))) as [E|]; [|reflexivity].
        exfalso. apply Hne. apply Hinj; assumption. }
    assert (Hid2 : forall y, id (heap st2 y) = id (heap st y)).
    { intro y. subst st2. simpl. destruct (Nat.eqb_spec y x) as [->|]; reflexivity. }
    destruct (IH st2 (acc ++ [x])%list Hnd') as [H1 H2].
    + intros y Hy. rewrite Hact. apply filter_In. split; [apply Htodo; now right|].
      destruct (Nat.eqb_spec y x) as [->|]; [contradiction | reflexivity].
    + intros y1 y2 Hy1 Hy2 E. rewrite !Hid2 in E. rewrite Hact in Hy1, Hy2.
      apply filter_In in Hy1 as [Hy1 _]. apply filter_In in Hy2 as [Hy2 _].
      apply Hinj; assumption.
    + split; [rewrite H1, <- app_assoc; reflexivity|].
      rewrite H2, Hact, filter_filter_and. apply filter_ext. intro y. simpl.
      rewrite negb_orb. reflexivity.
Qed.

(** With every price lookup and store update succeeding, no duplicate
    location and distinct ids, [process_expired_strategies] returns exactly
    the expired records, in order, and keeps exactly the others active. *)
Theorem process_expired_settles_exactly_expired price update now st :
  (forall s, price s <> None) ->
  (forall a b c d e f, update a b c d e f = true) ->
  NoDup (active_strategies st) ->
  ids_distinct st ->
  snd (process_expired_strategies price update now st) = get_expired_strategies now st /\
  active_strategies (fst (process_expired_strategies price update now st))
    = filter (fun l => negb (Z.leb (expiration_date (heap st l)) now))
             (active_strategies st).
Proof.
  intros Hprice Hupd Hnd Hinj. unfold process_expired_strategies.
  destruct (process_loop_all_settled price update now (get_expired_strategies now st)
              Hprice Hupd st [] (NoDup_filter _ Hnd)) as [H1 H2].
  - intros x Hx. unfold get_expired_strategies in Hx. now apply filter_In in Hx as [Hx _].
  - exact Hinj.
  - split; [exact H1|]. rewrite H2. apply filter_ext_in. intros y Hy. f_equal.
    unfold get_expired_strategies.
    destruct (Z.leb (expiration_date (heap st y)) now) eqn:E.
    + apply existsb_exists. exists y. split; [apply filter_In; now split|].
      apply Nat.eqb_refl.
    + destruct (existsb (Nat.eqb y) _) eqn:E2; [|reflexivity].
      apply existsb_exists in E2 as (z & Hz & Hyz). apply Nat.eqb_eq in Hyz. subst z.
      apply filter_In in Hz as [_ Hz]. congruence.
Qed.

Lemma process_expired_settles_exactly_expired_witness :
  NoDup (active_strategies two_record_tracker) /\ ids_distinct two_record_tracker /\
  snd (process_expired_strategies price_160 store_ok 200 two_record_tracker)
    = get_expired_strategies 200 two_record_tracker /\
  active_strategies (fst (process_expired_strategies price_160 store_ok 200 two_record_tracker))
    = filter (fun l => negb (Z.leb (expiration_date (heap two_record_tracker l)) 200))
             (active_strategies two_record_tracker).
Proof.
  assert (Hn : NoDup (active_strategies two_record_tracker)).
  { simpl. constructor; [intros [H|[]]; discriminate|]. constructor; [intros []|constructor]. }
  assert (Hd : ids_distinct two_record_tracker)
    by (intros l1 l2 [<-|[<-|[]]] [<-|[<-|[]]]; simpl; congruence).
  split; [exact Hn|]. split; [exact Hd|].
  apply (process_expired_settles_exactly_expired price_160 store_ok 200 two_record_tracker);
    [intros s; discriminate | intros; reflexivity | exact Hn | exact Hd].
Defined.
